(** * Shallow embedding of the OCI rootfs unpacker of Apptainer
    ([internal/pkg/build/sources/oci_unpack.go]) and of [RemoteList]. *)

From Stdlib Require Import String Ascii ZArith List Bool Lia.
From Stdlib Require Import Sorting.Permutation Sorting.Sorted DecimalN.
Import ListNotations.
Open Scope string_scope.
Open Scope Z_scope.

(* ------------------------------------------------------------------ *)
(** ** Errors *)

(** I/O errors reported by the operating system, as far as
    [os.IsPermission] and [os.IsNotExist] classify them. *)
Inductive IoErr :=
| EACCES                  (* permission denied: os.IsPermission *)
| EPERM                   (* operation not permitted: os.IsPermission *)
| ENOENT                  (* no such file or directory: os.IsNotExist *)
| EIO (msg : string).     (* anything else, e.g. a stale handle *)

Definition os_IsPermission (e : IoErr) : bool :=
  match e with EACCES | EPERM => true | _ => false end.

Definition os_IsNotExist (e : IoErr) : bool :=
  match e with ENOENT => true | _ => false end.

(** The error values that reach a caller of [unpackRootfs] or [checkPerms].
    Each constructor is one [errors.New] / [fmt.Errorf] of the source, or an
    error handed back verbatim by a collaborator.  [fmt.Errorf] is always
    used with [%s], so none of these errors wraps another one. *)
Inductive GoError :=
| ErrRestrictivePerm                    (* errors.New("restrictive file permission found") *)
| ErrAccessRootfs (path : string) (cause : IoErr)
                                        (* "unable to access rootfs path %s: %s" *)
| ErrParseUidmap (msg : string)         (* "error parsing uidmap: %s" *)
| ErrParseGidmap (msg : string)         (* "error parsing gidmap: %s" *)
| ErrOpenLayout (msg : string)          (* "error opening layout: %s" *)
| ErrImageSource (msg : string)         (* "error creating image source: %s" *)
| ErrManifestSource (msg : string)      (* "error obtaining manifest source: %s" *)
| ErrMediaType (mediaType : string)     (* "error verifying manifest media type: %s" *)
| ErrUnpack (msg : string)              (* "error unpacking rootfs: %s" *)
| ErrFixPerms (msg : string).           (* returned verbatim by sytypes.FixPerms *)

(** [errors.Is]: walks the [Unwrap] chain; no error above wraps another,
    so the chain has length one and [errors.Is] is identity of values. *)
Definition errors_Unwrap (e : GoError) : option GoError := None.

Definition ioerr_eqb (a b : IoErr) : bool :=
  match a, b with
  | EACCES, EACCES | EPERM, EPERM | ENOENT, ENOENT => true
  | EIO m, EIO n => String.eqb m n
  | _, _ => false
  end.

Definition goerror_eqb (a b : GoError) : bool :=
  match a, b with
  | ErrRestrictivePerm, ErrRestrictivePerm => true
  | ErrAccessRootfs p c, ErrAccessRootfs q d => String.eqb p q && ioerr_eqb c d
  | ErrParseUidmap m, ErrParseUidmap n
  | ErrParseGidmap m, ErrParseGidmap n
  | ErrOpenLayout m, ErrOpenLayout n
  | ErrImageSource m, ErrImageSource n
  | ErrManifestSource m, ErrManifestSource n
  | ErrMediaType m, ErrMediaType n
  | ErrUnpack m, ErrUnpack n
  | ErrFixPerms m, ErrFixPerms n => String.eqb m n
  | _, _ => false
  end.

Definition errors_Is (err : option GoError) (target : GoError) : bool :=
  match err with
  | None => false
  | Some e =>
      goerror_eqb e target ||
      match errors_Unwrap e with Some e' => goerror_eqb e' target | None => false end
  end.

(* ------------------------------------------------------------------ *)
(** ** OCI manifests (image-spec [specs-go/v1]) *)

Definition MediaTypeImageManifest : string := "application/vnd.oci.image.manifest.v1+json".
Definition MediaTypeImageConfig : string := "application/vnd.oci.image.config.v1+json".

Record Descriptor := {
  d_MediaType : string;
  d_Digest : string;
  d_Size : Z;
  d_URLs : list string;
  d_Annotations : list (string * string)
}.

Record Manifest := {
  m_SchemaVersion : Z;
  m_MediaType : string;
  m_Config : Descriptor;
  m_Layers : list Descriptor;
  m_Annotations : list (string * string)
}.

Definition zeroDescriptor : Descriptor :=
  {| d_MediaType := ""; d_Digest := ""; d_Size := 0; d_URLs := []; d_Annotations := [] |}.

(** [var manifest imgspecv1.Manifest]: the zero value. *)
Definition zeroManifest : Manifest :=
  {| m_SchemaVersion := 0; m_MediaType := ""; m_Config := zeroDescriptor;
     m_Layers := []; m_Annotations := [] |}.

(** The manifest bytes returned by the image source: either a JSON text that
    decodes to a manifest, or text that is not well-formed JSON. *)
Inductive RawManifest := JsonManifest (m : Manifest) | MalformedJson (raw : string).

(** [json.Unmarshal(data, &v)]: well-formedness is checked before anything is
    stored, so on a syntax error [v] keeps its previous value. *)
Definition json_Unmarshal (data : RawManifest) (v : Manifest) : Manifest * option string :=
  match data with
  | JsonManifest m => (m, None)
  | MalformedJson _ => (v, Some "invalid character looking for beginning of value")
  end.

Definition set_MediaType (d : Descriptor) (mt : string) : Descriptor :=
  {| d_MediaType := mt; d_Digest := d_Digest d; d_Size := d_Size d;
     d_URLs := d_URLs d; d_Annotations := d_Annotations d |}.

Definition set_Config (m : Manifest) (c : Descriptor) : Manifest :=
  {| m_SchemaVersion := m_SchemaVersion m; m_MediaType := m_MediaType m;
     m_Config := c; m_Layers := m_Layers m; m_Annotations := m_Annotations m |}.

Definition set_Layers (m : Manifest) (ls : list Descriptor) : Manifest :=
  {| m_SchemaVersion := m_SchemaVersion m; m_MediaType := m_MediaType m;
     m_Config := m_Config m; m_Layers := ls; m_Annotations := m_Annotations m |}.

(** [s[idx] = x] on a slice, [idx] in range. *)
Fixpoint slice_set {A} (s : list A) (idx : nat) (x : A) : list A :=
  match s, idx with
  | [], _ => []
  | _ :: t, O => x :: t
  | y :: t, S i => y :: slice_set t i x
  end.

Fixpoint slice_get {A} (s : list A) (idx : nat) (dflt : A) : A :=
  match s, idx with
  | [], _ => dflt
  | y :: _, O => y
  | _ :: t, S i => slice_get t i dflt
  end.

(** The body of [for idx, layerDescriptor := range manifest.Layers]:
    the switch on the layer's media type. *)
Definition layer_switch (layers : list Descriptor) (idx : nat) (layerDescriptor : Descriptor)
  : list Descriptor :=
  let mediaType := d_MediaType layerDescriptor in
  if String.eqb mediaType "application/vnd.docker.image.rootfs.diff.tar.gzip" then
    slice_set layers idx
      (set_MediaType (slice_get layers idx zeroDescriptor) "application/vnd.oci.image.layer.v1.tar+gzip")
  else if String.eqb mediaType "application/vnd.docker.image.rootfs.diff.tar" then
    slice_set layers idx
      (set_MediaType (slice_get layers idx zeroDescriptor) "application/vnd.oci.image.layer.v1.tar")
  else layers.

(** The range loop: [range] is the slice as evaluated once before the loop
    (it shares its backing array with [manifest.Layers], but element [idx]
    is only written at iteration [idx]). *)
Fixpoint layers_loop (idx : nat) (range : list Descriptor) (layers : list Descriptor)
  : list Descriptor :=
  match range with
  | [] => layers
  | layerDescriptor :: rest => layers_loop (S idx) rest (layer_switch layers idx layerDescriptor)
  end.

(** Lines 93-102 of [unpackRootfs]. *)
Definition normalizeManifest (manifest : Manifest) : Manifest :=
  let manifest := set_Config manifest (set_MediaType (m_Config manifest) MediaTypeImageConfig) in
  set_Layers manifest (layers_loop 0 (m_Layers manifest) (m_Layers manifest)).

(* ------------------------------------------------------------------ *)
(** ** ID mappings: [fmt.Sprintf("0:%d:1", id)] parsed by umoci's
    [idtools.ParseMapping] *)

Fixpoint uint_to_string (u : Decimal.uint) : string :=
  match u with
  | Decimal.Nil => ""
  | Decimal.D0 u => String "0" (uint_to_string u)
  | Decimal.D1 u => String "1" (uint_to_string u)
  | Decimal.D2 u => String "2" (uint_to_string u)
  | Decimal.D3 u => String "3" (uint_to_string u)
  | Decimal.D4 u => String "4" (uint_to_string u)
  | Decimal.D5 u => String "5" (uint_to_string u)
  | Decimal.D6 u => String "6" (uint_to_string u)
  | Decimal.D7 u => String "7" (uint_to_string u)
  | Decimal.D8 u => String "8" (uint_to_string u)
  | Decimal.D9 u => String "9" (uint_to_string u)
  end.

(** The [%d] verb on an [int]. *)
Definition fmt_d (n : Z) : string :=
  if n <? 0 then String "-" (uint_to_string (N.to_uint (Z.to_N (- n))))
  else uint_to_string (N.to_uint (Z.to_N n)).

Definition Sprintf_0_d_1 (n : Z) : string := "0:" ++ fmt_d n ++ ":1".

(** [strings.Split(s, ":")]. *)
Fixpoint split_colon (s : string) : list string :=
  match s with
  | EmptyString => [""]
  | String c r =>
      if Ascii.eqb c ":" then "" :: split_colon r
      else match split_colon r with
           | h :: t => String c h :: t
           | [] => [String c ""]
           end
  end.

Definition digit_val (c : ascii) : option Z :=
  let n := Z.of_nat (nat_of_ascii c) in
  if (48 <=? n) && (n <=? 57) then Some (n - 48) else None.

Fixpoint parse_digits (acc : Z) (s : string) : option Z :=
  match s with
  | EmptyString => Some acc
  | String c r =>
      match digit_val c with
      | Some d => parse_digits (acc * 10 + d) r
      | None => None
      end
  end.

(** [strconv.Atoi] on a 64-bit platform: optional sign, at least one
    decimal digit, result within [int64]. *)
Definition strconv_Atoi (s : string) : Z + string :=
  let '(neg, body) :=
    match s with
    | String c r =>
        if Ascii.eqb c "-" then (true, r)
        else if Ascii.eqb c "+" then (false, r)
        else (false, s)
    | EmptyString => (false, s)
    end in
  match body with
  | EmptyString => inr ("strconv.Atoi: parsing " ++ s ++ ": invalid syntax")
  | _ =>
      match parse_digits 0 body with
      | None => inr ("strconv.Atoi: parsing " ++ s ++ ": invalid syntax")
      | Some v =>
          let v := if neg then - v else v in
          if (- 2 ^ 63 <=? v) && (v <? 2 ^ 63) then inl v
          else inr ("strconv.Atoi: parsing " ++ s ++ ": value out of range")
      end
  end.

(** [rspec.LinuxIDMapping]. *)
Record LinuxIDMapping := { ContainerID : Z; HostID : Z; Size : Z }.

(** Go's conversion [uint32(x)] of an [int]. *)
Definition uint32_of (x : Z) : Z := x mod 2 ^ 32.

(** umoci's [idtools.ParseMapping]: "container:host[:size]", size 1 by default. *)
Definition idtools_ParseMapping (spec : string) : LinuxIDMapping + string :=
  let parts := split_colon spec in
  let size :=
    match parts with
    | [_; _; s] => match strconv_Atoi s with
                   | inl n => inl n
                   | inr e => inr ("invalid size in mapping: " ++ e)
                   end
    | [_; _] => inl 1
    | _ => inr ("invalid number of fields in mapping '" ++ spec ++ "'")
    end in
  match size, parts with
  | inl size, c :: h :: _ =>
      match strconv_Atoi c, strconv_Atoi h with
      | inl contID, inl hostID =>
          inl {| ContainerID := uint32_of contID; HostID := uint32_of hostID;
                 Size := uint32_of size |}
      | inr e, _ => inr ("invalid containerID in mapping: " ++ e)
      | _, inr e => inr ("invalid hostID in mapping: " ++ e)
      end
  | inr e, _ => inr e
  | inl _, _ => inr ("invalid number of fields in mapping '" ++ spec ++ "'")
  end.

(** [umocilayer.MapOptions]. *)
Record MapOptions := {
  UIDMappings : list LinuxIDMapping;
  GIDMappings : list LinuxIDMapping;
  Rootless : bool
}.

Definition zeroMapOptions : MapOptions :=
  {| UIDMappings := []; GIDMappings := []; Rootless := false |}.

(* ------------------------------------------------------------------ *)
(** ** Files, logging and the world the pipeline acts on *)

(** A [os.FileMode]: permission bits in the low 9 bits, [ModeDir] is bit 31. *)
Definition ModeDir : Z := Z.shiftl 1 31.
Definition ModePerm : Z := 511. (* 0o777 *)

Definition FileMode_IsDir (m : Z) : bool := negb (Z.land m ModeDir =? 0).
Definition FileMode_Perm (m : Z) : Z := Z.land m ModePerm.

(** The [os.FileInfo] a walk hands to its callback (only the mode is used). *)
Record FileInfo := { fi_name : string; fi_mode : Z }.

(** A filesystem entry: its path as components, whether it is a directory,
    and its permission bits. *)
Record Entry := { e_path : list string; e_dir : bool; e_perm : Z }.

Inductive LogLevel := Debug | Warning.

(** Observable events: calls to the logging sink and to the external
    capabilities that mutate the filesystem. *)
Inductive Event :=
| EvLog (lvl : LogLevel) (msg : string)
| EvApexSetLevel (lvl : Z)
| EvRemoveAll (path : list string)
| EvUnpackRootfs (path : list string) (present : list Entry)
                 (manifest : Manifest) (opts : MapOptions)
| EvFixPerms (path : list string)
| EvPermWalk (root : string).

Record World := { w_fs : list Entry; w_events : list Event }.

(** A state and error monad over the world. *)
Definition M (A : Type) : Type := World -> World * (A + GoError).

Definition ret {A} (a : A) : M A := fun w => (w, inl a).
Definition throw {A} (e : GoError) : M A := fun w => (w, inr e).
Definition bind {A B} (m : M A) (k : A -> M B) : M B :=
  fun w => match m w with
           | (w', inl a) => k a w'
           | (w', inr e) => (w', inr e)
           end.

Notation "x <- m ;; k" := (bind m (fun x => k))
  (at level 61, m at next level, right associativity).
Notation "m ;;; k" := (bind m (fun _ => k))
  (at level 61, right associativity).

Definition emit (ev : Event) : M unit :=
  fun w => ({| w_fs := w_fs w; w_events := w_events w ++ [ev] |}, inl tt).

Definition sylog_Debugf (msg : string) : M unit := emit (EvLog Debug msg).
Definition sylog_Warningf (msg : string) : M unit := emit (EvLog Warning msg).

(** Go functions returning a bare [error]: the value [nil] is [None]. *)
Definition Err := option GoError.

(* ------------------------------------------------------------------ *)
(** ** checkPerms *)

(** What the walk primitive learns about an entry: either its [FileInfo],
    or the error that prevented accessing it. *)
Inductive Access := Accessible (f : FileInfo) | Inaccessible (e : IoErr).

(** The callback given to [fs.PermWalkRaiseError] in [checkPerms]. *)
Definition checkPerms_walkFn (path : string) (a : Access) : M Err :=
  match a with
  | Inaccessible err =>
      if os_IsPermission err then
        sylog_Debugf ("Path " ++ path ++ " has restrictive permissions");;;
        ret (Some ErrRestrictivePerm)
      else ret (Some (ErrAccessRootfs path err))
  | Accessible f =>
      if FileMode_IsDir (fi_mode f) &&
         negb (Z.land (FileMode_Perm (fi_mode f)) 448 =? 448) (* 0o700 *)
      then
        sylog_Debugf ("Path " ++ path ++ " has restrictive permissions");;;
        ret (Some ErrRestrictivePerm)
      else ret None
  end.

(** Modelled from the spec: [fs.PermWalkRaiseError] (internal/pkg/util/fs,
    not among the sources).  Section 6 of the spec: it visits every entry
    under the root, invoking the per-entry evaluator, which may signal
    early termination; the walk stops at the first non-nil result of the
    evaluator and returns it. The visit is given as the list of entries in
    the order the walker reaches them. *)
Fixpoint walk_entries (visit : list (string * Access))
         (walkFn : string -> Access -> M Err) : M Err :=
  match visit with
  | [] => ret None
  | (p, a) :: rest =>
      r <- walkFn p a;;
      match r with
      | Some e => ret (Some e)
      | None => walk_entries rest walkFn
      end
  end.

Definition PermWalkRaiseError (root : string) (visit : list (string * Access))
         (walkFn : string -> Access -> M Err) : M Err :=
  emit (EvPermWalk root);;; walk_entries visit walkFn.

Definition warn_rm : string :=
  "The sandbox contain files/dirs that cannot be removed with 'rm'.".
Definition warn_chmod : string :=
  "Use 'chmod -R u+rwX' to set permissions that allow removal.".
Definition warn_fixperms : string :=
  "Use the '--fix-perms' option to 'apptainer build' to modify permissions at build time.".

Definition checkPerms (rootfs : string) (visit : list (string * Access)) : M Err :=
  err <- PermWalkRaiseError rootfs visit checkPerms_walkFn;;
  if errors_Is err ErrRestrictivePerm then
    sylog_Warningf warn_rm;;;
    sylog_Warningf warn_chmod;;;
    sylog_Warningf warn_fixperms;;;
    ret None
  else ret err.

(* ------------------------------------------------------------------ *)
(** ** The filesystem operations of the orchestrator *)

Fixpoint path_prefix (p q : list string) : bool :=
  match p, q with
  | [], _ => true
  | x :: p', y :: q' => String.eqb x y && path_prefix p' q'
  | _ :: _, [] => false
  end.

Fixpoint path_eqb (p q : list string) : bool :=
  match p, q with
  | [], [] => true
  | x :: p', y :: q' => String.eqb x y && path_eqb p' q'
  | _, _ => false
  end.

Definition under (p : list string) (fs : list Entry) : list Entry :=
  filter (fun e => path_prefix p (e_path e)) fs.

(** [os.RemoveAll(path)] run as user [euid] on a tree the user owns: an
    entry strictly below [path] cannot be unlinked by a non-root user when
    its parent directory lacks owner rwx; a directory that still has
    children cannot be removed either.  Everything else under [path] is
    removed; the first failure is reported. *)
Definition blocked (euid : Z) (p : list string) (fs : list Entry) (e : Entry) : bool :=
  negb (euid =? 0) && path_prefix p (e_path e) && negb (path_eqb p (e_path e)) &&
  existsb (fun a => e_dir a && path_eqb (e_path a) (removelast (e_path e)) &&
                    negb (Z.land (e_perm a) 448 =? 448)) fs.

Definition survives (euid : Z) (p : list string) (fs : list Entry) (e : Entry) : bool :=
  existsb (fun b => blocked euid p fs b && path_prefix (e_path e) (e_path b)) fs.

Definition os_RemoveAll (euid : Z) (p : list string) : M (option IoErr) :=
  fun w =>
    let fs := w_fs w in
    let fs' := filter (fun e => negb (path_prefix p (e_path e)) || survives euid p fs e) fs in
    ({| w_fs := fs'; w_events := w_events w ++ [EvRemoveAll p] |},
     inl (if existsb (blocked euid p fs) fs then Some EACCES else None)).

(** The collaborators of [unpackRootfs], injected as data: the ambient
    process state, the answers of the layout, image source, umoci and
    [sytypes.FixPerms], and what the walk of the finished rootfs sees. *)
Record Env := {
  sylog_GetLevel : Z;
  namespaces_IsUnprivileged : bool;
  os_Geteuid : Z;
  os_Getegid : Z;
  umoci_OpenLayout : option string;           (* error of umoci.OpenLayout(b.TmpDir) *)
  NewImageSource : option string;             (* error of tmpfsRef.NewImageSource *)
  GetManifest : (RawManifest * string) + string;  (* (manifestData, mediaType) or error *)
  UnpackRootfs_err : option string;           (* error of umocilayer.UnpackRootfs *)
  UnpackRootfs_files : list Entry;            (* entries it writes below the rootfs *)
  sytypes_FixPerms_err : option string;       (* error of sytypes.FixPerms *)
  rootfs_walk : list (string * Access)        (* entries the rootfs walk reaches *)
}.

(** [umocilayer.UnpackRootfs(ctx, engineExt, b.RootfsPath, manifest, &unpackOptions)]. *)
Definition umocilayer_UnpackRootfs (env : Env) (rootfs : list string) (manifest : Manifest)
           (opts : MapOptions) : M (option string) :=
  fun w =>
    let ev := EvUnpackRootfs rootfs (under rootfs (w_fs w)) manifest opts in
    match UnpackRootfs_err env with
    | Some msg => ({| w_fs := w_fs w; w_events := w_events w ++ [ev] |}, inl (Some msg))
    | None =>
        let written := map (fun e => {| e_path := rootfs ++ e_path e; e_dir := e_dir e;
                                        e_perm := e_perm e |}) (UnpackRootfs_files env) in
        ({| w_fs := w_fs w ++ written; w_events := w_events w ++ [ev] |}, inl None)
    end.

Definition sytypes_FixPerms (env : Env) (rootfs : list string) : M Err :=
  emit (EvFixPerms rootfs);;;
  ret (option_map ErrFixPerms (sytypes_FixPerms_err env)).

(** [sylog] and [apexlog] levels. *)
Definition sylog_ErrorLevel : Z := -3.
Definition sylog_LogLevel : Z := -1.
Definition sylog_DebugLevel : Z := 5.
Definition apexlog_DebugLevel : Z := 0.
Definition apexlog_InfoLevel : Z := 1.
Definition apexlog_WarnLevel : Z := 2.
Definition apexlog_ErrorLevel : Z := 3.

(** Lines 56-72: the mapping options. *)
Definition buildMapOptions (env : Env) : M MapOptions :=
  if namespaces_IsUnprivileged env then
    sylog_Debugf "setting umoci rootless mode";;;
    match idtools_ParseMapping (Sprintf_0_d_1 (os_Geteuid env)) with
    | inr e => throw (ErrParseUidmap e)
    | inl uidMap =>
        match idtools_ParseMapping (Sprintf_0_d_1 (os_Getegid env)) with
        | inr e => throw (ErrParseGidmap e)
        | inl gidMap =>
            ret {| Rootless := true; UIDMappings := [] ++ [uidMap];
                   GIDMappings := [] ++ [gidMap] |}
        end
    end
  else ret zeroMapOptions.

(** [sytypes.Bundle], with the options the unpacker reads. *)
Record Options := { FixPerms : bool; SandboxTarget : bool }.
Record Bundle := { TmpDir : string; RootfsPath : list string; Opts : Options }.

(** A Go function returning [error]: an early [return err] and the final
    [return] both end in the returned value. *)
Definition go_func (body : M Err) : M Err :=
  fun w => match body w with
           | (w', inl r) => (w', inl r)
           | (w', inr e) => (w', inl (Some e))
           end.

(** [b.RootfsPath] as the string handed to [checkPerms]. *)
Definition path_string (p : list string) : string := String.concat "/" p.

(** Lines 39-54: the apex log level set for umoci. *)
Definition apexLevel (loggerLevel : Z) : Z :=
  if loggerLevel <=? sylog_ErrorLevel then apexlog_ErrorLevel
  else if loggerLevel <=? sylog_LogLevel then apexlog_WarnLevel
  else if loggerLevel <? sylog_DebugLevel then apexlog_InfoLevel
  else apexlog_DebugLevel.

(** Lines 37-112 of [unpackRootfs], up to the result of
    [umocilayer.UnpackRootfs]. *)
Definition unpack_stage (env : Env) (b : Bundle) : M (option string) :=
  emit (EvApexSetLevel (apexLevel (sylog_GetLevel env)));;;
  mapOptions <- buildMapOptions env;;
  (match umoci_OpenLayout env with Some e => throw (ErrOpenLayout e) | None => ret tt end);;;
  (match NewImageSource env with Some e => throw (ErrImageSource e) | None => ret tt end);;;
  md <- (match GetManifest env with inr e => throw (ErrManifestSource e) | inl x => ret x end);;
  let '(manifestData, mediaType) := md in
  if negb (String.eqb mediaType MediaTypeImageManifest) then throw (ErrMediaType mediaType)
  else
    (* json.Unmarshal(manifestData, &manifest): its error is not inspected *)
    let manifest := fst (json_Unmarshal manifestData zeroManifest) in
    let manifest := normalizeManifest manifest in
    (* os.RemoveAll(b.RootfsPath): its error is not inspected *)
    os_RemoveAll (os_Geteuid env) (RootfsPath b);;;
    umocilayer_UnpackRootfs env (RootfsPath b) manifest mapOptions.

(** Lines 114-131: post-processing after a successful unpack. *)
Definition postUnpack (env : Env) (b : Bundle) : M Err :=
  if FixPerms (Opts b) then
    sylog_Warningf "The --fix-perms option modifies the filesystem permissions on the resulting container.";;;
    sylog_Debugf "Modifying permissions for file/directory owners";;;
    sytypes_FixPerms env (RootfsPath b)
  else if SandboxTarget (Opts b) then
    sylog_Debugf "Scanning for restrictive permissions";;;
    checkPerms (path_string (RootfsPath b)) (rootfs_walk env)
  else ret None.

Definition unpackRootfs (env : Env) (b : Bundle) : M Err :=
  go_func (
    err <- unpack_stage env b;;
    match err with
    | Some e => throw (ErrUnpack e)
    | None => postUnpack env b
    end).

(* ------------------------------------------------------------------ *)
(** ** RemoteList (package [apptainer]) *)

(** [remote.Remote] and [remote.Config]; the map [Remotes] is an
    association list whose order is the map's iteration order. *)
Record Remote := { URI : string; System : bool; Exclusive : bool; Insecure : bool }.
Record Config := { Remotes : list (string * Remote); DefaultRemote : string }.

Definition emptyConfig : Config := {| Remotes := []; DefaultRemote := "" |}.

Fixpoint remote_lookup (rs : list (string * Remote)) (n : string) : option Remote :=
  match rs with
  | [] => None
  | (k, r) :: t => if String.eqb k n then Some r else remote_lookup t n
  end.

(** [c.Remotes[n].System]; the listed names are all keys of the map. *)
Definition remote_System (c : Config) (n : string) : bool :=
  match remote_lookup (Remotes c) n with Some r => System r | None => false end.

(** A comparison sort driven by a [less] function, as [sort.Slice] and
    [sort.Strings] are: insertion of each element before the first one it
    is not greater than. *)
Fixpoint sort_insert {A} (less : A -> A -> bool) (x : A) (l : list A) : list A :=
  match l with
  | [] => [x]
  | y :: t => if less y x then y :: sort_insert less x t else x :: y :: t
  end.

Fixpoint sort_by {A} (less : A -> A -> bool) (l : list A) : list A :=
  match l with
  | [] => []
  | x :: t => sort_insert less x (sort_by less t)
  end.

(** [sort.Strings]: ascending by Go's byte-wise [<] on strings. *)
Definition sort_Strings (l : list string) : list string := sort_by String.ltb l.

(** The comparator given to [sort.Slice] in [RemoteList]. *)
Definition remote_less (c : Config) (iName jName : string) : bool :=
  if remote_System c iName && negb (remote_System c jName) then true
  else if negb (remote_System c iName) && remote_System c jName then false
  else String.ltb iName jName.

(** Lines 48-64: the names in listing order. *)
Definition RemoteList_names (c : Config) : list string :=
  let names := map fst (Remotes c) in
  let names := sort_by (remote_less c) names in
  sort_Strings names.

Definition yes_no (b : bool) : string := if b then "YES" else "NO".

(** One [fmt.Fprintf(tw, listLine, ...)] row per name. *)
Definition RemoteList_row (c : Config) (n : string) : list string :=
  match remote_lookup (Remotes c) n with
  | Some r =>
      [n; URI r;
       yes_no (negb (String.eqb (DefaultRemote c) "") && String.eqb (DefaultRemote c) n);
       yes_no (System r); yes_no (Exclusive r); yes_no (Insecure r)]
  | None => [n]
  end.

Definition RemoteList_header : list (list string) :=
  [["Cloud Services Endpoints"]; ["========================"]; [""];
   ["NAME"; "URI"; "ACTIVE"; "GLOBAL"; "EXCLUSIVE"; "INSECURE"]].

Definition RemoteList_output (c : Config) : list (list string) :=
  RemoteList_header ++ map (RemoteList_row c) (RemoteList_names c).

(** A filesystem of regular files ([directory], [name], contents, mode) and
    directories (path, writable by the user), with the process umask. *)
Record FS := {
  fs_files : list (string * string * string * Z);
  fs_dirs : list (string * bool);
  fs_umask : Z
}.

Definition O_RDONLY : Z := 0.
Definition O_CREATE : Z := 64. (* 0o100 *)

Fixpoint file_lookup (fs : list (string * string * string * Z)) (d n : string)
  : option string :=
  match fs with
  | [] => None
  | (d', n', contents, _) :: t =>
      if String.eqb d d' && String.eqb n n' then Some contents else file_lookup t d n
  end.

Fixpoint dir_lookup (ds : list (string * bool)) (d : string) : option bool :=
  match ds with
  | [] => None
  | (d', w) :: t => if String.eqb d d' then Some w else dir_lookup t d
  end.

(** [os.OpenFile(name, flag, perm)] for reading: an existing file is opened;
    a missing one is created empty with mode [perm &^ umask] when [O_CREATE]
    is set and its directory exists and is writable. *)
Definition os_OpenFile (fs : FS) (d n : string) (flag perm : Z) : FS * (string + IoErr) :=
  match file_lookup (fs_files fs) d n with
  | Some contents => (fs, inl contents)
  | None =>
      if Z.testbit flag 6 then
        match dir_lookup (fs_dirs fs) d with
        | None => (fs, inr ENOENT)
        | Some false => (fs, inr EACCES)
        | Some true =>
            ({| fs_files := fs_files fs ++ [(d, n, "", Z.land perm (Z.lnot (fs_umask fs)))];
                fs_dirs := fs_dirs fs; fs_umask := fs_umask fs |}, inl "")
        end
      else (fs, inr ENOENT)
  end.

(** The errors [RemoteList] returns, one per return site. *)
Inductive RemoteListError :=
| ErrNoRemoteConfigs                   (* "no remote configurations" *)
| ErrOpeningConfig (e : IoErr)         (* "while opening remote config file: %s" *)
| ErrParsingConfig (msg : string)      (* "while parsing remote config data: %s" *)
| ErrSyncSysConfig (msg : string).     (* returned verbatim by syncSysConfig *)

Section RemoteListing.

(** [remote.ReadFrom] and [syncSysConfig] belong to other files of the
    repository; the listing is stated for any implementation of them. *)
Variable remote_ReadFrom : string -> Config + string.
Variable syncSysConfig : Config -> Config * option string.

(** [RemoteList(usrConfigFile)], with the user configuration file given as
    directory and base name; returns the final filesystem, the lines
    printed and the returned error. *)
Definition RemoteList (fs : FS) (dir base : string)
  : FS * list (list string) * option RemoteListError :=
  match os_OpenFile fs dir base (Z.lor O_RDONLY O_CREATE) 384 (* 0o600 *) with
  | (fs', inr err) =>
      if os_IsNotExist err then (fs', [], Some ErrNoRemoteConfigs)
      else (fs', [], Some (ErrOpeningConfig err))
  | (fs', inl contents) =>
      match remote_ReadFrom contents with
      | inr e => (fs', [], Some (ErrParsingConfig e))
      | inl c =>
          match syncSysConfig c with
          | (_, Some e) => (fs', [], Some (ErrSyncSysConfig e))
          | (c, None) => (fs', RemoteList_output c, None)
          end
      end
  end.

End RemoteListing.

(* ================================================================== *)
(** * Properties *)

Open Scope list_scope.

Definition log_to (w : World) (evs : list Event) : World :=
  {| w_fs := w_fs w; w_events := w_events w ++ evs |}.

Definition is_warning (ev : Event) : bool :=
  match ev with EvLog Warning _ => true | _ => false end.

Definition warnings (evs : list Event) : list Event := filter is_warning evs.

Lemma log_to_nil w : log_to w [] = w.
Proof. destruct w; unfold log_to; simpl; rewrite app_nil_r; reflexivity. Qed.

Lemma log_to_log_to w a b : log_to (log_to w a) b = log_to w (a ++ b).
Proof. unfold log_to; simpl; rewrite app_assoc; reflexivity. Qed.

Lemma warnings_app a b : warnings (a ++ b) = warnings a ++ warnings b.
Proof. unfold warnings; apply filter_app. Qed.

Lemma land_perm_700 m : Z.land (FileMode_Perm m) 448 = Z.land m 448.
Proof. unfold FileMode_Perm, ModePerm; rewrite <- Z.land_assoc; reflexivity. Qed.

(** One step of the walk callback: it either raises the sentinel after one
    debug message, or returns something else without logging. *)
Lemma walkFn_shape p a w :
  (checkPerms_walkFn p a w =
     (log_to w [EvLog Debug ("Path " ++ p ++ " has restrictive permissions")%string],
      inl (Some ErrRestrictivePerm))) \/
  (exists r, checkPerms_walkFn p a w = (w, inl r) /\ r <> Some ErrRestrictivePerm).
Proof.
  destruct a as [f | e]; simpl.
  - destruct (FileMode_IsDir (fi_mode f) && _); [left; reflexivity|].
    right; exists None; split; [reflexivity | discriminate].
  - destruct (os_IsPermission e); [left; reflexivity|].
    right; eexists; split; [reflexivity | discriminate].
Qed.

Lemma walk_entries_shape visit w :
  exists evs r, walk_entries visit checkPerms_walkFn w = (log_to w evs, inl r) /\
                warnings evs = [].
Proof.
  revert w; induction visit as [| [p a] rest IH]; intro w; simpl.
  - exists [], None; rewrite log_to_nil; auto.
  - unfold bind at 1.
    destruct (walkFn_shape p a w) as [H | [r [H Hr]]]; rewrite H.
    + exists [EvLog Debug ("Path " ++ p ++ " has restrictive permissions")%string],
        (Some ErrRestrictivePerm); auto.
    + destruct r as [e|].
      * exists [], (Some e); rewrite log_to_nil; auto.
      * exact (IH w).
Qed.

(** [errors.Is(err, errRestrictivePerm)] holds exactly for the sentinel. *)
Lemma errors_Is_sentinel err :
  errors_Is err ErrRestrictivePerm = true <-> err = Some ErrRestrictivePerm.
Proof.
  split.
  - destruct err as [e|]; simpl; [|discriminate].
    destruct e; simpl; try discriminate; reflexivity.
  - intros ->; reflexivity.
Qed.

(** C7 *)
(** Claim C7: the per-entry evaluator of [checkPerms] raises the sentinel
    on a permission error, returns the hard "unable to access rootfs path"
    error on any other access error (and [checkPerms] then returns it to
    its caller), raises the sentinel on a directory whose mode lacks one
    of the owner bits 0o700, and never raises anything for an accessible
    entry that is not a directory. *)
Theorem checkPerms_walkFn_policy :
  forall (root path : string) (err : IoErr) (f : FileInfo)
         (rest : list (string * Access)) (w : World),
    (os_IsPermission err = true ->
       snd (checkPerms_walkFn path (Inaccessible err) w) = inl (Some ErrRestrictivePerm)) /\
    (os_IsPermission err = false ->
       snd (checkPerms_walkFn path (Inaccessible err) w) = inl (Some (ErrAccessRootfs path err)) /\
       snd (checkPerms root ((path, Inaccessible err) :: rest) w) =
         inl (Some (ErrAccessRootfs path err))) /\
    (FileMode_IsDir (fi_mode f) = true -> Z.land (fi_mode f) 448 <> 448 ->
       snd (checkPerms_walkFn path (Accessible f) w) = inl (Some ErrRestrictivePerm)) /\
    (FileMode_IsDir (fi_mode f) = false ->
       snd (checkPerms_walkFn path (Accessible f) w) = inl None).
Proof.
  intros root path err f rest w.
  split; [|split; [|split]].
  - intro H; simpl; rewrite H; reflexivity.
  - intro H; split; [simpl; rewrite H; reflexivity|].
    unfold checkPerms, PermWalkRaiseError, bind, emit, ret; simpl.
    rewrite H; reflexivity.
  - intros Hd Hp; simpl; rewrite Hd, land_perm_700.
    apply Z.eqb_neq in Hp; rewrite Hp; reflexivity.
  - intro Hd; simpl; rewrite Hd; reflexivity.
Qed.

(** C2 *)
(** Claim C2: when the walk of [checkPerms] ends with the sentinel,
    [checkPerms] returns nil after emitting exactly the three fixed warnings
    (the walk itself emits none); any other result of the walk is returned
    unchanged; the sentinel is never returned. *)
Theorem checkPerms_sentinel_boundary :
  forall (root : string) (visit : list (string * Access)) (w w1 : World) (err : Err),
    walk_entries visit checkPerms_walkFn (log_to w [EvPermWalk root]) = (w1, inl err) ->
    (err = Some ErrRestrictivePerm ->
       checkPerms root visit w =
         (log_to w1 [EvLog Warning warn_rm; EvLog Warning warn_chmod;
                     EvLog Warning warn_fixperms], inl None)) /\
    (err <> Some ErrRestrictivePerm -> checkPerms root visit w = (w1, inl err)) /\
    warnings (w_events w1) = warnings (w_events w) /\
    snd (checkPerms root visit w) <> inl (Some ErrRestrictivePerm).
Proof.
  intros root visit w w1 err Hwalk.
  assert (Hrun : checkPerms root visit w =
    if errors_Is err ErrRestrictivePerm
    then (log_to w1 [EvLog Warning warn_rm; EvLog Warning warn_chmod;
                     EvLog Warning warn_fixperms], inl None)
    else (w1, inl err)).
  { unfold checkPerms, PermWalkRaiseError, bind, emit. simpl.
    change {| w_fs := w_fs w; w_events := w_events w ++ [EvPermWalk root] |}
      with (log_to w [EvPermWalk root]).
    rewrite Hwalk.
    destruct (errors_Is err ErrRestrictivePerm); [|reflexivity].
    unfold ret, log_to; simpl; rewrite <- !app_assoc; reflexivity. }
  destruct (walk_entries_shape visit (log_to w [EvPermWalk root])) as [evs [r [Hw Hwarn]]].
  rewrite Hwalk in Hw; injection Hw as Hw1 Hr; subst w1 r.
  split; [|split; [|split]].
  - intros ->; exact Hrun.
  - intro Hne; rewrite Hrun.
    destruct (errors_Is err ErrRestrictivePerm) eqn:Hi; [|reflexivity].
    apply errors_Is_sentinel in Hi; contradiction.
  - unfold log_to; simpl; rewrite !warnings_app, Hwarn; simpl.
    rewrite !app_nil_r; reflexivity.
  - rewrite Hrun.
    destruct (errors_Is err ErrRestrictivePerm) eqn:Hi; simpl; [discriminate|].
    intro Heq; injection Heq as ->; discriminate.
Qed.

(* ------------------------------------------------------------------ *)
(** ** Reading back [fmt.Sprintf("0:%d:1", id)] *)

Lemma split_colon_digits u r :
  split_colon (uint_to_string u ++ String ":" r)%string = uint_to_string u :: split_colon r.
Proof. induction u; simpl; try rewrite IHu; reflexivity. Qed.

Ltac eval_digit_val :=
  repeat lazymatch goal with
  | |- context [digit_val ?c] =>
      let v := eval vm_compute in (digit_val c) in change (digit_val c) with v
  end; cbv beta iota.

Lemma parse_digits_acc u p :
  parse_digits (Zpos p) (uint_to_string u) = Some (Zpos (Pos.of_uint_acc u p)).
Proof.
  revert p; induction u; intro p; cbn [uint_to_string parse_digits Pos.of_uint_acc];
    eval_digit_val; try reflexivity;
    rewrite <- IHu; f_equal; rewrite ?Pos2Z.inj_add, Pos2Z.inj_mul; lia.
Qed.

Lemma parse_digits_uint u :
  parse_digits 0 (uint_to_string u) = Some (Z.of_N (N.of_uint u)).
Proof.
  induction u; simpl; try reflexivity; try exact IHu; apply parse_digits_acc.
Qed.

Lemma digit_val_sign c d : digit_val c = Some d -> Ascii.eqb c "-" = false /\ Ascii.eqb c "+" = false.
Proof.
  intro H; split;
    [destruct (Ascii.eqb c "-") eqn:E | destruct (Ascii.eqb c "+") eqn:E];
    try reflexivity; apply Ascii.eqb_eq in E; subst c; discriminate.
Qed.

Lemma Atoi_digits s v :
  parse_digits 0 s = Some v -> s <> EmptyString -> 0 <= v < 2 ^ 63 -> strconv_Atoi s = inl v.
Proof.
  intros Hp Hs Hv.
  destruct s as [|c r]; [contradiction|].
  assert (Hd : exists d, digit_val c = Some d).
  { simpl in Hp; destruct (digit_val c); [eauto|discriminate]. }
  destruct Hd as [d Hd]; destruct (digit_val_sign c d Hd) as [Hm Hpl].
  unfold strconv_Atoi; rewrite Hm, Hpl, Hp.
  replace ((- 2 ^ 63 <=? v) && (v <? 2 ^ 63)) with true by (symmetry; apply andb_true_intro; split; [apply Z.leb_le | apply Z.ltb_lt]; lia).
  reflexivity.
Qed.

Lemma fmt_d_nonneg n : 0 <= n -> fmt_d n = uint_to_string (N.to_uint (Z.to_N n)).
Proof. intro H; unfold fmt_d; replace (n <? 0) with false by (symmetry; apply Z.ltb_ge; lia); reflexivity. Qed.

Lemma Atoi_fmt_d n : 0 <= n < 2 ^ 63 -> strconv_Atoi (fmt_d n) = inl n.
Proof.
  intro H; rewrite fmt_d_nonneg by lia.
  assert (Hof : N.of_uint (N.to_uint (Z.to_N n)) = Z.to_N n) by apply DecimalN.Unsigned.of_to.
  apply Atoi_digits; [| |lia].
  - rewrite parse_digits_uint, Hof, Z2N.id by lia; reflexivity.
  - destruct (N.to_uint (Z.to_N n)) eqn:Hu; simpl; try discriminate.
    simpl in Hof; assert (n = 0) by lia; subst n; discriminate Hu.
Qed.

Lemma ParseMapping_Sprintf n :
  0 <= n < 2 ^ 32 ->
  idtools_ParseMapping (Sprintf_0_d_1 n) = inl {| ContainerID := 0; HostID := n; Size := 1 |}.
Proof.
  intro H.
  assert (Hsplit : split_colon (Sprintf_0_d_1 n) = ["0"; fmt_d n; "1"]%string).
  { unfold Sprintf_0_d_1; rewrite fmt_d_nonneg by lia; simpl.
    rewrite split_colon_digits; reflexivity. }
  unfold idtools_ParseMapping; rewrite Hsplit.
  rewrite Atoi_fmt_d by lia; simpl.
  unfold uint32_of; rewrite (Z.mod_small n) by lia; reflexivity.
Qed.

Lemma buildMapOptions_run :
  forall (env : Env) (w : World),
    0 <= os_Geteuid env < 2 ^ 32 -> 0 <= os_Getegid env < 2 ^ 32 ->
    buildMapOptions env w =
      if namespaces_IsUnprivileged env then
        (log_to w [EvLog Debug "setting umoci rootless mode"],
         inl {| UIDMappings := [{| ContainerID := 0; HostID := os_Geteuid env; Size := 1 |}];
                GIDMappings := [{| ContainerID := 0; HostID := os_Getegid env; Size := 1 |}];
                Rootless := true |})
      else (w, inl {| UIDMappings := []; GIDMappings := []; Rootless := false |}).
Proof.
  intros env w Hu Hg.
  unfold buildMapOptions.
  destruct (namespaces_IsUnprivileged env); [|reflexivity].
  unfold bind, sylog_Debugf, emit.
  rewrite !ParseMapping_Sprintf by assumption.
  reflexivity.
Qed.

(** C4 *)
(** Claim C4: when the process is unprivileged, the mapping options are
    rootless with exactly one UID mapping (0, euid, 1) and exactly one GID
    mapping (0, egid, 1); when it is privileged, they are not rootless and
    both lists are empty.  Effective IDs are [uid_t]/[gid_t] values. *)
Theorem buildMapOptions_rootless :
  forall (env : Env) (w : World),
    0 <= os_Geteuid env < 2 ^ 32 -> 0 <= os_Getegid env < 2 ^ 32 ->
    exists w', buildMapOptions env w =
      (w', inl (if namespaces_IsUnprivileged env then
         {| UIDMappings := [{| ContainerID := 0; HostID := os_Geteuid env; Size := 1 |}];
            GIDMappings := [{| ContainerID := 0; HostID := os_Getegid env; Size := 1 |}];
            Rootless := true |}
       else {| UIDMappings := []; GIDMappings := []; Rootless := false |})).
Proof.
  intros env w Hu Hg.
  rewrite (buildMapOptions_run env w Hu Hg).
  destruct (namespaces_IsUnprivileged env); eexists; reflexivity.
Qed.

(* ------------------------------------------------------------------ *)
(** ** Media-type normalization *)

Definition DockerLayerGzip : string := "application/vnd.docker.image.rootfs.diff.tar.gzip".
Definition DockerLayer : string := "application/vnd.docker.image.rootfs.diff.tar".
Definition OCILayerGzip : string := "application/vnd.oci.image.layer.v1.tar+gzip".
Definition OCILayer : string := "application/vnd.oci.image.layer.v1.tar".

(** The media type a layer ends up with, as the spec lists the rewrites. *)
Definition normalized_layer_type (mt : string) : string :=
  if String.eqb mt DockerLayerGzip then OCILayerGzip
  else if String.eqb mt DockerLayer then OCILayer
  else mt.

Definition normalize_layer (d : Descriptor) : Descriptor :=
  set_MediaType d (normalized_layer_type (d_MediaType d)).

Lemma set_MediaType_same d : set_MediaType d (d_MediaType d) = d.
Proof. destruct d; reflexivity. Qed.

Lemma set_MediaType_twice d a b : set_MediaType (set_MediaType d a) b = set_MediaType d b.
Proof. destruct d; reflexivity. Qed.

Lemma slice_get_at {A} (pre rest : list A) (x dflt : A) :
  slice_get (pre ++ x :: rest) (length pre) dflt = x.
Proof. induction pre; simpl; auto. Qed.

Lemma slice_set_at {A} (pre rest : list A) (x y : A) :
  slice_set (pre ++ x :: rest) (length pre) y = pre ++ y :: rest.
Proof. induction pre; simpl; f_equal; auto. Qed.

Lemma layer_switch_at pre d rest :
  layer_switch (pre ++ d :: rest) (length pre) d = pre ++ normalize_layer d :: rest.
Proof.
  unfold layer_switch, normalize_layer, normalized_layer_type,
    DockerLayerGzip, DockerLayer, OCILayerGzip, OCILayer.
  rewrite slice_get_at.
  repeat match goal with |- context [if ?c then _ else _] => destruct c end;
    try apply slice_set_at.
  rewrite set_MediaType_same; reflexivity.
Qed.

Lemma layers_loop_map pre rest :
  layers_loop (length pre) rest (pre ++ rest) = pre ++ map normalize_layer rest.
Proof.
  revert pre; induction rest as [| d rest IH]; intro pre; simpl.
  - reflexivity.
  - rewrite layer_switch_at.
    replace (pre ++ normalize_layer d :: rest) with ((pre ++ [normalize_layer d]) ++ rest)
      by (rewrite <- app_assoc; reflexivity).
    replace (S (length pre)) with (length (pre ++ [normalize_layer d]))
      by (rewrite length_app; simpl; lia).
    rewrite IH, <- app_assoc; reflexivity.
Qed.

Lemma normalizeManifest_layers m :
  m_Layers (normalizeManifest m) = map normalize_layer (m_Layers m).
Proof. apply (layers_loop_map []). Qed.

Lemma normalizeManifest_eq m :
  normalizeManifest m =
    {| m_SchemaVersion := m_SchemaVersion m; m_MediaType := m_MediaType m;
       m_Config := set_MediaType (m_Config m) MediaTypeImageConfig;
       m_Layers := map normalize_layer (m_Layers m);
       m_Annotations := m_Annotations m |}.
Proof.
  unfold normalizeManifest, set_Layers, set_Config; simpl.
  rewrite (layers_loop_map []); reflexivity.
Qed.

Lemma normalized_layer_type_idem mt :
  normalized_layer_type (normalized_layer_type mt) = normalized_layer_type mt.
Proof.
  unfold normalized_layer_type.
  destruct (String.eqb mt DockerLayerGzip) eqn:E1; [reflexivity|].
  destruct (String.eqb mt DockerLayer) eqn:E2; [reflexivity|].
  rewrite E1, E2; reflexivity.
Qed.

Lemma normalize_layer_idem d : normalize_layer (normalize_layer d) = normalize_layer d.
Proof.
  unfold normalize_layer at 1 2; simpl.
  rewrite normalized_layer_type_idem, set_MediaType_twice; reflexivity.
Qed.

(** C5 *)
(** Claim C5: normalization keeps the number of layers, rewrites the media
    type of each layer by [normalized_layer_type] (docker tar+gzip to OCI
    tar+gzip, docker tar to OCI tar) leaving its other fields alone, leaves
    a layer with any other media type unchanged, and normalizing twice
    (config media type included) gives the same manifest as once. *)
Theorem normalizeManifest_spec :
  forall (m : Manifest),
    length (m_Layers (normalizeManifest m)) = length (m_Layers m) /\
    (forall i d, nth_error (m_Layers m) i = Some d ->
       nth_error (m_Layers (normalizeManifest m)) i =
         Some {| d_MediaType := normalized_layer_type (d_MediaType d);
                 d_Digest := d_Digest d; d_Size := d_Size d;
                 d_URLs := d_URLs d; d_Annotations := d_Annotations d |}) /\
    (forall i d, nth_error (m_Layers m) i = Some d ->
       d_MediaType d <> DockerLayerGzip -> d_MediaType d <> DockerLayer ->
       nth_error (m_Layers (normalizeManifest m)) i = Some d) /\
    normalizeManifest (normalizeManifest m) = normalizeManifest m.
Proof.
  intro m; rewrite normalizeManifest_layers.
  split; [|split; [|split]].
  - apply length_map.
  - intros i d H; rewrite nth_error_map, H; reflexivity.
  - intros i d H H1 H2; rewrite nth_error_map, H; simpl; f_equal.
    unfold normalize_layer, normalized_layer_type.
    apply String.eqb_neq in H1, H2; rewrite H1, H2, set_MediaType_same; reflexivity.
  - rewrite !normalizeManifest_eq; simpl.
    rewrite set_MediaType_twice, map_map.
    f_equal. apply map_ext; intro d; apply normalize_layer_idem.
Qed.

(* ------------------------------------------------------------------ *)
(** ** The orchestrator *)

(** Events that touch the rootfs: removal, extraction, permission fixing
    and the permission walk. *)
Definition extraction_event (ev : Event) : bool :=
  match ev with
  | EvRemoveAll _ | EvUnpackRootfs _ _ _ _ | EvFixPerms _ | EvPermWalk _ => true
  | EvLog _ _ | EvApexSetLevel _ => false
  end.

Definition pre_events (env : Env) : list Event :=
  EvApexSetLevel (apexLevel (sylog_GetLevel env)) ::
  (if namespaces_IsUnprivileged env then [EvLog Debug "setting umoci rootless mode"] else []).

Definition expected_mapOptions (env : Env) : MapOptions :=
  if namespaces_IsUnprivileged env then
    {| UIDMappings := [{| ContainerID := 0; HostID := os_Geteuid env; Size := 1 |}];
       GIDMappings := [{| ContainerID := 0; HostID := os_Getegid env; Size := 1 |}];
       Rootless := true |}
  else {| UIDMappings := []; GIDMappings := []; Rootless := false |}.

(** Running [unpack_stage] up to the media-type check, when the process
    IDs are valid and the layout, the image source and the manifest fetch
    succeed. *)
Lemma unpack_stage_fetched env b w data mt :
  0 <= os_Geteuid env < 2 ^ 32 -> 0 <= os_Getegid env < 2 ^ 32 ->
  umoci_OpenLayout env = None -> NewImageSource env = None ->
  GetManifest env = inl (data, mt) ->
  unpack_stage env b w =
    if String.eqb mt MediaTypeImageManifest then
      (os_RemoveAll (os_Geteuid env) (RootfsPath b);;;
       umocilayer_UnpackRootfs env (RootfsPath b)
         (normalizeManifest (fst (json_Unmarshal data zeroManifest)))
         (expected_mapOptions env)) (log_to w (pre_events env))
    else (log_to w (pre_events env), inr (ErrMediaType mt)).
Proof.
  intros Hu Hg Hl Hs Hm.
  unfold unpack_stage, bind at 1, emit at 1.
  change {| w_fs := w_fs w; w_events := w_events w ++ [EvApexSetLevel (apexLevel (sylog_GetLevel env))] |}
    with (log_to w [EvApexSetLevel (apexLevel (sylog_GetLevel env))]).
  unfold bind at 1; rewrite buildMapOptions_run by assumption.
  unfold expected_mapOptions, pre_events.
  destruct (namespaces_IsUnprivileged env);
    rewrite ?log_to_log_to, ?log_to_nil; simpl;
    rewrite Hl, Hs, Hm; cbv [bind ret throw]; cbv beta iota;
    destruct (String.eqb mt MediaTypeImageManifest); reflexivity.
Qed.

(** C3 *)
(** Claim C3: when the fetched manifest's media type is not the OCI
    image-manifest type, [unpackRootfs] returns the media-type error with
    the filesystem untouched and without removing the rootfs, extracting,
    fixing permissions or walking. *)
Theorem unpackRootfs_rejects_media_type :
  forall (env : Env) (b : Bundle) (w : World) (data : RawManifest) (mt : string),
    0 <= os_Geteuid env < 2 ^ 32 -> 0 <= os_Getegid env < 2 ^ 32 ->
    umoci_OpenLayout env = None -> NewImageSource env = None ->
    GetManifest env = inl (data, mt) ->
    mt <> MediaTypeImageManifest ->
    exists evs,
      unpackRootfs env b w = (log_to w evs, inl (Some (ErrMediaType mt))) /\
      forallb (fun ev => negb (extraction_event ev)) evs = true.
Proof.
  intros env b w data mt Hu Hg Hl Hs Hm Hne.
  exists (pre_events env); split.
  - unfold unpackRootfs, go_func, bind at 1.
    rewrite (unpack_stage_fetched env b w data mt) by assumption.
    apply String.eqb_neq in Hne; rewrite Hne; reflexivity.
  - unfold pre_events; destruct (namespaces_IsUnprivileged env); reflexivity.
Qed.

Lemma checkPerms_total root visit w : exists w' r, checkPerms root visit w = (w', inl r).
Proof.
  destruct (walk_entries_shape visit (log_to w [EvPermWalk root])) as [evs [r [Hw _]]].
  unfold checkPerms, PermWalkRaiseError, bind, emit.
  change {| w_fs := w_fs w; w_events := w_events w ++ [EvPermWalk root] |}
    with (log_to w [EvPermWalk root]).
  rewrite Hw; destruct (errors_Is r ErrRestrictivePerm); cbv [bind ret emit sylog_Warningf]; eauto.
Qed.

(** C6 *)
(** Claim C6: after a successful unpack, [FixPerms] takes precedence: the
    recursive permission fix runs and its result is returned, with no
    permission walk; the scanner runs only when [FixPerms] is unset and
    [SandboxTarget] set; with both unset nothing more happens and nil is
    returned. *)
Theorem unpackRootfs_postprocessing :
  forall (env : Env) (b : Bundle) (w w1 : World),
    unpack_stage env b w = (w1, inl None) ->
    (FixPerms (Opts b) = true ->
       unpackRootfs env b w =
         (log_to w1 [EvLog Warning "The --fix-perms option modifies the filesystem permissions on the resulting container.";
                     EvLog Debug "Modifying permissions for file/directory owners";
                     EvFixPerms (RootfsPath b)],
          inl (option_map ErrFixPerms (sytypes_FixPerms_err env)))) /\
    (FixPerms (Opts b) = false -> SandboxTarget (Opts b) = true ->
       unpackRootfs env b w =
         checkPerms (path_string (RootfsPath b)) (rootfs_walk env)
           (log_to w1 [EvLog Debug "Scanning for restrictive permissions"])) /\
    (FixPerms (Opts b) = false -> SandboxTarget (Opts b) = false ->
       unpackRootfs env b w = (w1, inl None)).
Proof.
  intros env b w w1 Hst.
  split; [|split]; intros;
    unfold unpackRootfs, go_func, bind at 1; rewrite Hst; unfold postUnpack.
  - rewrite H.
    cbv [bind sylog_Warningf sylog_Debugf sytypes_FixPerms emit ret log_to]; simpl.
    rewrite <- !app_assoc; reflexivity.
  - rewrite H, H0.
    unfold bind at 1, sylog_Debugf, emit at 1.
    change {| w_fs := w_fs w1; w_events := w_events w1 ++ [EvLog Debug "Scanning for restrictive permissions"] |}
      with (log_to w1 [EvLog Debug "Scanning for restrictive permissions"]).
    destruct (checkPerms_total (path_string (RootfsPath b)) (rootfs_walk env)
                (log_to w1 [EvLog Debug "Scanning for restrictive permissions"]))
      as [w' [r Hc]].
    rewrite Hc; reflexivity.
  - rewrite H, H0; reflexivity.
Qed.

(* ------------------------------------------------------------------ *)
(** ** Two concrete runs *)

Definition bundle_plain : Bundle :=
  {| TmpDir := "/tmp/bundle/oci"; RootfsPath := ["tmp"; "bundle"; "rootfs"];
     Opts := {| FixPerms := false; SandboxTarget := false |} |}.

Definition empty_world : World := {| w_fs := []; w_events := [] |}.

(** A registry answer that claims the OCI manifest type but whose body is
    not JSON; everything else succeeds, as root. *)
Definition env_malformed : Env :=
  {| sylog_GetLevel := 1; namespaces_IsUnprivileged := false;
     os_Geteuid := 0; os_Getegid := 0;
     umoci_OpenLayout := None; NewImageSource := None;
     GetManifest := inl (MalformedJson "{", MediaTypeImageManifest);
     UnpackRootfs_err := None; UnpackRootfs_files := [];
     sytypes_FixPerms_err := None; rootfs_walk := [] |}.

Definition layer_one : Descriptor :=
  {| d_MediaType := DockerLayerGzip; d_Digest := "sha256:0123"; d_Size := 1024;
     d_URLs := []; d_Annotations := [] |}.

Definition manifest_one : Manifest :=
  {| m_SchemaVersion := 2; m_MediaType := MediaTypeImageManifest;
     m_Config := zeroDescriptor; m_Layers := [layer_one]; m_Annotations := [] |}.

(** A second build by user 1000 into the rootfs of an earlier sandbox that
    kept a directory [d] of mode 0o500 holding a file [f]. *)
Definition env_rerun : Env :=
  {| sylog_GetLevel := 1; namespaces_IsUnprivileged := true;
     os_Geteuid := 1000; os_Getegid := 1000;
     umoci_OpenLayout := None; NewImageSource := None;
     GetManifest := inl (JsonManifest manifest_one, MediaTypeImageManifest);
     UnpackRootfs_err := None;
     UnpackRootfs_files := [{| e_path := ["bin"]; e_dir := true; e_perm := 493 |}];
     sytypes_FixPerms_err := None; rootfs_walk := [] |}.

Definition stale_dir : Entry :=
  {| e_path := ["tmp"; "bundle"; "rootfs"; "d"]; e_dir := true; e_perm := 320 |}.
Definition stale_file : Entry :=
  {| e_path := ["tmp"; "bundle"; "rootfs"; "d"; "f"]; e_dir := false; e_perm := 420 |}.

Definition world_rerun : World :=
  {| w_fs := [{| e_path := ["tmp"; "bundle"; "rootfs"]; e_dir := true; e_perm := 493 |};
              stale_dir; stale_file];
     w_events := [] |}.

(** C1 *)
(** Claim C1 (fails): with a manifest body that is not JSON, the decode
    error of [json.Unmarshal] is dropped; the rootfs is removed and
    extracted from the zero-valued manifest (with the OCI config type
    forced), and [unpackRootfs] returns nil. *)
Theorem unpackRootfs_malformed_manifest_extracts :
  unpackRootfs env_malformed bundle_plain empty_world =
    ({| w_fs := [];
        w_events := [EvApexSetLevel apexlog_InfoLevel;
                     EvRemoveAll ["tmp"; "bundle"; "rootfs"];
                     EvUnpackRootfs ["tmp"; "bundle"; "rootfs"] []
                       (normalizeManifest zeroManifest) zeroMapOptions] |},
     inl None).
Proof. vm_compute; reflexivity. Qed.

(** C8 *)
(** Claim C8 (fails): the result of [os.RemoveAll] is dropped.  Re-running
    as user 1000 into a rootfs that holds a directory of mode 0o500 with a
    file in it, the removal fails, umoci is still invoked while that file
    is present, and the file is in the rootfs after the successful build. *)
Theorem unpackRootfs_rerun_keeps_stale_file :
  snd (os_RemoveAll 1000 ["tmp"; "bundle"; "rootfs"] world_rerun) = inl (Some EACCES) /\
  (let '(w', r) := unpackRootfs env_rerun bundle_plain world_rerun in
   r = inl None /\ In stale_file (w_fs w') /\
   exists present m o,
     In (EvUnpackRootfs ["tmp"; "bundle"; "rootfs"] present m o) (w_events w') /\
     In stale_file present).
Proof.
  split; [vm_compute; reflexivity|].
  vm_compute.
  split; [reflexivity|].
  split; [right; right; left; reflexivity|].
  do 3 eexists; split.
  - right; right; right; left; reflexivity.
  - right; right; left; reflexivity.
Qed.

(* ------------------------------------------------------------------ *)
(** ** Listing order of [RemoteList] *)

Lemma string_compare_not_gt_trans s1 s2 s3 :
  String.compare s1 s2 <> Gt -> String.compare s2 s3 <> Gt -> String.compare s1 s3 <> Gt.
Proof.
  revert s2 s3; induction s1 as [|a s1 IH]; intros [|b s2] [|c s3]; simpl;
    try congruence.
  unfold Ascii.compare.
  destruct (N.compare_spec (N_of_ascii a) (N_of_ascii b));
  destruct (N.compare_spec (N_of_ascii b) (N_of_ascii c));
  destruct (N.compare_spec (N_of_ascii a) (N_of_ascii c));
    try congruence; try lia.
  apply IH.
Qed.

Definition str_le (a b : string) : Prop := String.leb a b = true.

Lemma str_le_trans a b c : str_le a b -> str_le b c -> str_le a c.
Proof.
  unfold str_le, String.leb.
  destruct (String.compare a b) eqn:E1; try discriminate;
  destruct (String.compare b c) eqn:E2; try discriminate;
  destruct (String.compare a c) eqn:E3; try reflexivity;
  exfalso; apply (string_compare_not_gt_trans a b c); congruence.
Qed.

Lemma ltb_false_le a b : String.ltb b a = false -> str_le a b.
Proof.
  unfold str_le, String.ltb, String.leb; intro H.
  rewrite (String.compare_antisym a b).
  destruct (String.compare b a); simpl in *; congruence.
Qed.

Lemma ltb_true_le a b : String.ltb a b = true -> str_le a b.
Proof.
  unfold str_le, String.ltb, String.leb.
  destruct (String.compare a b); congruence.
Qed.

Lemma sort_insert_perm {A} (less : A -> A -> bool) x l :
  Permutation (x :: l) (sort_insert less x l).
Proof.
  induction l as [|y l IH]; simpl; [reflexivity|].
  destruct (less y x); [|reflexivity].
  transitivity (y :: x :: l); [constructor|constructor; exact IH].
Qed.

Lemma sort_by_perm {A} (less : A -> A -> bool) l : Permutation l (sort_by less l).
Proof.
  induction l as [|x l IH]; simpl; [reflexivity|].
  transitivity (x :: sort_by less l); [constructor; exact IH | apply sort_insert_perm].
Qed.

Lemma sort_insert_sorted x l :
  Sorted str_le l -> Sorted str_le (sort_insert String.ltb x l).
Proof.
  induction 1 as [|y l Hs IH Hhd]; simpl.
  - repeat constructor.
  - destruct (String.ltb y x) eqn:E.
    + constructor; [exact IH|].
      destruct l as [|z l]; simpl; [constructor; apply ltb_true_le; exact E|].
      inversion Hhd; subst.
      destruct (String.ltb z x); constructor; [assumption | apply ltb_true_le; exact E].
    + constructor; [constructor; [exact Hs | exact Hhd]|].
      constructor; apply ltb_false_le; exact E.
Qed.

Lemma sort_Strings_sorted l : Sorted str_le (sort_Strings l).
Proof.
  unfold sort_Strings; induction l; simpl; [constructor|].
  apply sort_insert_sorted; assumption.
Qed.

Lemma sorted_perm_unique l1 l2 :
  StronglySorted str_le l1 -> StronglySorted str_le l2 -> Permutation l1 l2 -> l1 = l2.
Proof.
  revert l2; induction l1 as [|a l1 IH]; intros l2 H1 H2 Hp.
  - symmetry; apply Permutation_nil; exact Hp.
  - destruct l2 as [|b l2]; [apply Permutation_sym, Permutation_nil in Hp; discriminate|].
    inversion H1 as [|? ? H1' Ha]; inversion H2 as [|? ? H2' Hb]; subst.
    assert (Hab : a = b).
    { destruct (String.string_dec a b) as [|Hne]; [assumption|].
      assert (Ia : In a l2).
      { destruct (Permutation_in a Hp (or_introl eq_refl)); [congruence|assumption]. }
      assert (Ib : In b l1).
      { destruct (Permutation_in b (Permutation_sym Hp) (or_introl eq_refl)); [congruence|assumption]. }
      apply String.leb_antisym.
      - exact (proj1 (Forall_forall _ _) Ha b Ib).
      - exact (proj1 (Forall_forall _ _) Hb a Ia). }
    subst b; f_equal; apply IH; auto.
    apply Permutation_cons_inv with a; exact Hp.
Qed.

Lemma sorted_strongly l : Sorted str_le l -> StronglySorted str_le l.
Proof. apply Sorted_StronglySorted; intros x y z; apply str_le_trans. Qed.

(** C9 *)
(** Claim C9: whatever the system flags of the remotes and whatever the
    map's iteration order, the names [RemoteList] prints come out exactly
    as one plain [sort.Strings] of the names would give them: sorted
    lexicographically, the system-first [sort.Slice] having no effect. *)
Theorem RemoteList_names_alphabetical :
  forall (c : Config),
    RemoteList_names c = sort_Strings (map fst (Remotes c)) /\
    Sorted str_le (RemoteList_names c) /\
    Permutation (map fst (Remotes c)) (RemoteList_names c).
Proof.
  intro c.
  assert (Hp : Permutation (map fst (Remotes c)) (RemoteList_names c)).
  { unfold RemoteList_names, sort_Strings.
    transitivity (sort_by (remote_less c) (map fst (Remotes c))); apply sort_by_perm. }
  split; [|split; [|exact Hp]].
  - apply sorted_perm_unique.
    + apply sorted_strongly; apply sort_Strings_sorted.
    + apply sorted_strongly; apply sort_Strings_sorted.
    + transitivity (map fst (Remotes c)); [apply Permutation_sym; exact Hp|].
      apply sort_by_perm.
  - apply sort_Strings_sorted.
Qed.

(* ------------------------------------------------------------------ *)
(** ** Opening the user configuration of [RemoteList] *)

(** C10 *)
(** Claim C10: for any [remote.ReadFrom] and [syncSysConfig], when the user
    configuration file is missing but its directory exists and is writable,
    [RemoteList] creates it empty with mode 0o600 (less the umask), does not
    return "no remote configurations", and prints the listing of what it
    read from the empty file (only the header when no remote results); and
    "no remote configurations" is returned exactly when the open-with-create
    call itself fails with a not-exist error. *)
Theorem RemoteList_open_creates :
  forall (ReadFrom : string -> Config + string)
         (sync : Config -> Config * option string) (fs : FS) (d n : string),
    (file_lookup (fs_files fs) d n = None -> dir_lookup (fs_dirs fs) d = Some true ->
     let '(fs', out, err) := RemoteList ReadFrom sync fs d n in
     fs_files fs' = fs_files fs ++ [(d, n, "", Z.land 384 (Z.lnot (fs_umask fs)))] /\
     err <> Some ErrNoRemoteConfigs /\
     (forall c c', ReadFrom "" = inl c -> sync c = (c', None) ->
        err = None /\ out = RemoteList_output c' /\
        (Remotes c' = [] -> out = RemoteList_header))) /\
    ((let '(_, _, err) := RemoteList ReadFrom sync fs d n in err = Some ErrNoRemoteConfigs) <->
     exists fs', os_OpenFile fs d n (Z.lor O_RDONLY O_CREATE) 384 = (fs', inr ENOENT)).
Proof.
  intros ReadFrom sync fs d n; split.
  - intros Hf Hd.
    unfold RemoteList, os_OpenFile; rewrite Hf; simpl; rewrite Hd; simpl.
    destruct (ReadFrom "") as [c|e] eqn:Hr.
    + destruct (sync c) as [c' [e|]] eqn:Hs.
      * split; [reflexivity|split; [discriminate|]].
        intros c0 c0' H0 H1; injection H0 as <-; congruence.
      * split; [reflexivity|split; [discriminate|]].
        intros c0 c0' H0 H1; injection H0 as <-; rewrite Hs in H1; injection H1 as <-.
        split; [reflexivity|split; [reflexivity|]].
        intro He; unfold RemoteList_output, RemoteList_names; rewrite He; reflexivity.
    + split; [reflexivity|split; [discriminate|]].
      intros c0 c0' H0; discriminate.
  - unfold RemoteList.
    destruct (os_OpenFile fs d n (Z.lor O_RDONLY O_CREATE) 384) as [fs' [contents|e]] eqn:Ho.
    + split; [|intros [fs'' H]; discriminate].
      destruct (ReadFrom contents); [|discriminate].
      destruct (sync c) as [? [?|]]; discriminate.
    + split.
      * destruct (os_IsNotExist e) eqn:Hn; [|discriminate].
        intros _; exists fs'; destruct e; try discriminate; reflexivity.
      * intros [fs'' H]; injection H as _ ->; reflexivity.
Qed.

(* ------------------------------------------------------------------ *)
(** ** Instances of the theorems on concrete inputs *)

Definition restrictive_dir : FileInfo := {| fi_name := "d"; fi_mode := Z.lor ModeDir 320 |}.

Definition visit_restrictive : list (string * Access) :=
  [("rootfs/etc", Accessible {| fi_name := "etc"; fi_mode := Z.lor ModeDir 493 |});
   ("rootfs/d", Accessible restrictive_dir)].

Lemma checkPerms_walkFn_policy_witness :
  (FileMode_IsDir (fi_mode restrictive_dir) = true /\
   Z.land (fi_mode restrictive_dir) 448 <> 448) /\
  snd (checkPerms_walkFn "rootfs/d" (Accessible restrictive_dir) empty_world) =
    inl (Some ErrRestrictivePerm).
Proof.
  assert (H1 : FileMode_IsDir (fi_mode restrictive_dir) = true) by reflexivity.
  assert (H2 : Z.land (fi_mode restrictive_dir) 448 <> 448) by (vm_compute; congruence).
  split; [split; assumption|].
  exact (proj1 (proj2 (proj2 (checkPerms_walkFn_policy "rootfs" "rootfs/d" EACCES
           restrictive_dir [] empty_world))) H1 H2).
Defined.

Definition walk_restrictive_end : World :=
  Eval vm_compute in
    fst (walk_entries visit_restrictive checkPerms_walkFn
           (log_to empty_world [EvPermWalk "rootfs"])).

Lemma checkPerms_sentinel_boundary_witness :
  walk_entries visit_restrictive checkPerms_walkFn (log_to empty_world [EvPermWalk "rootfs"]) =
    (walk_restrictive_end, inl (Some ErrRestrictivePerm)) /\
  checkPerms "rootfs" visit_restrictive empty_world =
    (log_to walk_restrictive_end
       [EvLog Warning warn_rm; EvLog Warning warn_chmod; EvLog Warning warn_fixperms],
     inl None).
Proof.
  assert (Hw : walk_entries visit_restrictive checkPerms_walkFn
                 (log_to empty_world [EvPermWalk "rootfs"]) =
               (walk_restrictive_end, inl (Some ErrRestrictivePerm)))
    by (vm_compute; reflexivity).
  split; [exact Hw|].
  exact (proj1 (checkPerms_sentinel_boundary "rootfs" visit_restrictive empty_world
                  walk_restrictive_end (Some ErrRestrictivePerm) Hw) eq_refl).
Defined.

Lemma buildMapOptions_rootless_witness :
  (0 <= os_Geteuid env_rerun < 2 ^ 32 /\ 0 <= os_Getegid env_rerun < 2 ^ 32) /\
  exists w', buildMapOptions env_rerun empty_world =
    (w', inl {| UIDMappings := [{| ContainerID := 0; HostID := 1000; Size := 1 |}];
                GIDMappings := [{| ContainerID := 0; HostID := 1000; Size := 1 |}];
                Rootless := true |}).
Proof.
  assert (Hu : 0 <= os_Geteuid env_rerun < 2 ^ 32) by (simpl; lia).
  assert (Hg : 0 <= os_Getegid env_rerun < 2 ^ 32) by (simpl; lia).
  split; [split; assumption|].
  exact (buildMapOptions_rootless env_rerun empty_world Hu Hg).
Defined.

Lemma normalizeManifest_spec_witness :
  nth_error (m_Layers manifest_one) 0 = Some layer_one /\
  nth_error (m_Layers (normalizeManifest manifest_one)) 0 =
    Some {| d_MediaType := OCILayerGzip; d_Digest := "sha256:0123"; d_Size := 1024;
            d_URLs := []; d_Annotations := [] |}.
Proof.
  split; [reflexivity|].
  exact (proj1 (proj2 (normalizeManifest_spec manifest_one)) 0%nat layer_one eq_refl).
Defined.

Definition ManifestListType : string :=
  "application/vnd.docker.distribution.manifest.list.v2+json".

(** The registry hands back a manifest list. *)
Definition env_list : Env :=
  {| sylog_GetLevel := 1; namespaces_IsUnprivileged := true;
     os_Geteuid := 1000; os_Getegid := 1000;
     umoci_OpenLayout := None; NewImageSource := None;
     GetManifest := inl (JsonManifest manifest_one, ManifestListType);
     UnpackRootfs_err := None; UnpackRootfs_files := [];
     sytypes_FixPerms_err := None; rootfs_walk := [] |}.

Lemma unpackRootfs_rejects_media_type_witness :
  ManifestListType <> MediaTypeImageManifest /\
  exists evs,
    unpackRootfs env_list bundle_plain world_rerun =
      (log_to world_rerun evs, inl (Some (ErrMediaType ManifestListType))) /\
    forallb (fun ev => negb (extraction_event ev)) evs = true.
Proof.
  assert (Hne : ManifestListType <> MediaTypeImageManifest) by (intro H; discriminate H).
  split; [exact Hne|].
  apply (unpackRootfs_rejects_media_type env_list bundle_plain world_rerun
           (JsonManifest manifest_one) ManifestListType);
    [simpl; lia | simpl; lia | reflexivity | reflexivity | reflexivity | exact Hne].
Defined.

Definition bundle_both : Bundle :=
  {| TmpDir := "/tmp/bundle/oci"; RootfsPath := ["tmp"; "bundle"; "rootfs"];
     Opts := {| FixPerms := true; SandboxTarget := true |} |}.

Definition env_sandbox : Env :=
  {| sylog_GetLevel := 1; namespaces_IsUnprivileged := true;
     os_Geteuid := 1000; os_Getegid := 1000;
     umoci_OpenLayout := None; NewImageSource := None;
     GetManifest := inl (JsonManifest manifest_one, MediaTypeImageManifest);
     UnpackRootfs_err := None;
     UnpackRootfs_files := [{| e_path := ["d"]; e_dir := true; e_perm := 320 |}];
     sytypes_FixPerms_err := None; rootfs_walk := visit_restrictive |}.

Definition unpacked_sandbox : World :=
  Eval vm_compute in fst (unpack_stage env_sandbox bundle_both empty_world).

Lemma unpackRootfs_postprocessing_witness :
  unpack_stage env_sandbox bundle_both empty_world = (unpacked_sandbox, inl None) /\
  unpackRootfs env_sandbox bundle_both empty_world =
    (log_to unpacked_sandbox
       [EvLog Warning "The --fix-perms option modifies the filesystem permissions on the resulting container.";
        EvLog Debug "Modifying permissions for file/directory owners";
        EvFixPerms ["tmp"; "bundle"; "rootfs"]], inl None).
Proof.
  assert (Hst : unpack_stage env_sandbox bundle_both empty_world = (unpacked_sandbox, inl None))
    by (vm_compute; reflexivity).
  split; [exact Hst|].
  exact (proj1 (unpackRootfs_postprocessing env_sandbox bundle_both empty_world
                  unpacked_sandbox Hst) eq_refl).
Defined.

Definition fs_home : FS :=
  {| fs_files := []; fs_dirs := [("/home/u/.apptainer", true)]; fs_umask := 18 |}.

Definition ReadFrom_yaml (contents : string) : Config + string :=
  if String.eqb contents "" then inl emptyConfig else inr "unsupported".

Definition sync_none (c : Config) : Config * option string := (c, None).

Lemma RemoteList_open_creates_witness :
  (file_lookup (fs_files fs_home) "/home/u/.apptainer" "remote.yaml" = None /\
   dir_lookup (fs_dirs fs_home) "/home/u/.apptainer" = Some true) /\
  (let '(fs', out, err) := RemoteList ReadFrom_yaml sync_none fs_home "/home/u/.apptainer" "remote.yaml" in
   fs_files fs' = fs_files fs_home ++
                  [("/home/u/.apptainer", "remote.yaml", "", Z.land 384 (Z.lnot (fs_umask fs_home)))] /\
   err <> Some ErrNoRemoteConfigs /\
   (forall c c', ReadFrom_yaml "" = inl c -> sync_none c = (c', None) ->
      err = None /\ out = RemoteList_output c' /\
      (Remotes c' = [] -> out = RemoteList_header))).
Proof.
  assert (Hf : file_lookup (fs_files fs_home) "/home/u/.apptainer" "remote.yaml" = None)
    by reflexivity.
  assert (Hd : dir_lookup (fs_dirs fs_home) "/home/u/.apptainer" = Some true) by reflexivity.
  split; [split; assumption|].
  exact (proj1 (RemoteList_open_creates ReadFrom_yaml sync_none fs_home
                  "/home/u/.apptainer" "remote.yaml") Hf Hd).
Defined.

(* ================================================================== *)
(** * Further properties of [unpackRootfs], [checkPerms] and [RemoteList] *)

(** ** Effects that only move a world forward along a preorder *)

Section Steps.

Variable R : World -> World -> Prop.
Hypothesis R_refl : forall w, R w w.
Hypothesis R_trans : forall a b c, R a b -> R b c -> R a c.

(** Every run of [m] ends in a world related to the one it started in. *)
Definition steps {A} (m : M A) : Prop := forall w, R w (fst (m w)).

Lemma steps_ret {A} (a : A) : steps (ret a).
Proof. intro w; apply R_refl. Qed.

Lemma steps_throw {A} (e : GoError) : steps (A := A) (throw e).
Proof. intro w; apply R_refl. Qed.

Lemma steps_bind {A B} (m : M A) (k : A -> M B) :
  steps m -> (forall a, steps (k a)) -> steps (bind m k).
Proof.
  intros Hm Hk w; unfold bind.
  specialize (Hm w); destruct (m w) as [w' [a|e]]; simpl in *; [|exact Hm].
  exact (R_trans _ _ _ Hm (Hk a w')).
Qed.

Lemma steps_go_func (m : M Err) : steps m -> steps (go_func m).
Proof. intros Hm w; specialize (Hm w); unfold go_func; destruct (m w) as [w' [r|e]]; exact Hm. Qed.

End Steps.

Arguments steps R {A} m.

(** The event log only grows. *)
Definition ev_ext (w w' : World) : Prop := exists evs, w_events w' = w_events w ++ evs.

Lemma ev_ext_refl w : ev_ext w w.
Proof. exists []; rewrite app_nil_r; reflexivity. Qed.

Lemma ev_ext_trans a b c : ev_ext a b -> ev_ext b c -> ev_ext a c.
Proof.
  intros [e1 H1] [e2 H2]; exists (e1 ++ e2); rewrite H2, H1, app_assoc; reflexivity.
Qed.







(** Running a composite effect one statement at a time. *)
Ltac steps_with R Rr Rt leaf :=
  repeat first
    [ apply (steps_bind R Rt); [| intro]
    | apply (steps_go_func R)
    | apply (steps_ret R Rr)
    | apply (steps_throw R Rr)
    | leaf
    | match goal with
      | |- steps _ (if ?x then _ else _) => destruct x
      | |- steps _ (match ?x with Some _ => _ | None => _ end) => destruct x
      | |- steps _ (match ?x with inl _ => _ | inr _ => _ end) => destruct x
      | |- steps _ (let '(_, _) := ?x in _) => destruct x
      end ].

(** *** The log only grows *)

Lemma emit_ev ev : steps ev_ext (emit ev).
Proof. intro w; exists [ev]; reflexivity. Qed.

Lemma os_RemoveAll_ev euid p : steps ev_ext (os_RemoveAll euid p).
Proof. intro w; exists [EvRemoveAll p]; reflexivity. Qed.

Lemma umocilayer_UnpackRootfs_ev env p m o : steps ev_ext (umocilayer_UnpackRootfs env p m o).
Proof.
  intro w; unfold umocilayer_UnpackRootfs; destruct (UnpackRootfs_err env);
    eexists; reflexivity.
Qed.

Ltac ev_leaf :=
  first [ apply emit_ev | apply os_RemoveAll_ev | apply umocilayer_UnpackRootfs_ev
        | progress unfold sylog_Debugf | progress unfold sylog_Warningf ].

Ltac ev_steps := steps_with ev_ext ev_ext_refl ev_ext_trans ev_leaf.

Lemma walk_entries_ev visit : steps ev_ext (walk_entries visit checkPerms_walkFn).
Proof.
  induction visit as [| [p a] rest IH]; simpl; [ev_steps|].
  apply (steps_bind ev_ext ev_ext_trans); [|intros [e|]; [ev_steps | exact IH]].
  destruct a; unfold checkPerms_walkFn.
  all: ev_steps.
Qed.

Lemma checkPerms_ev root visit : steps ev_ext (checkPerms root visit).
Proof.
  unfold checkPerms, PermWalkRaiseError; ev_steps; apply walk_entries_ev.
Qed.

Lemma unpackRootfs_ev env b : steps ev_ext (unpackRootfs env b).
Proof.
  unfold unpackRootfs, unpack_stage, postUnpack, buildMapOptions, sytypes_FixPerms;
    ev_steps; apply walk_entries_ev.
Qed.

(** *** Entries outside the rootfs are left alone *)








(** X2 *)
(** Lines 39-54: the apex (umoci) log level follows the sylog level
    monotonically: a more verbose sylog level never gives a less verbose
    apex level; the apex level is always one of Debug..Error, it is Debug
    exactly from sylog's debug level on, and Error exactly up to sylog's
    error level. *)
Theorem apexLevel_monotone :
  forall l1 l2 : Z,
    (l1 <= l2 -> apexLevel l2 <= apexLevel l1) /\
    apexlog_DebugLevel <= apexLevel l1 <= apexlog_ErrorLevel /\
    (apexLevel l1 = apexlog_DebugLevel <-> sylog_DebugLevel <= l1) /\
    (apexLevel l1 = apexlog_ErrorLevel <-> l1 <= sylog_ErrorLevel).
Proof.
  intros l1 l2; unfold apexLevel, apexlog_DebugLevel, apexlog_InfoLevel, apexlog_WarnLevel,
    apexlog_ErrorLevel, sylog_ErrorLevel, sylog_LogLevel, sylog_DebugLevel.
  split; [|split; [|split]].
  - intro H.
    destruct (Z.leb_spec l1 (-3)), (Z.leb_spec l1 (-1)), (Z.ltb_spec l1 5),
             (Z.leb_spec l2 (-3)), (Z.leb_spec l2 (-1)), (Z.ltb_spec l2 5); lia.
  - destruct (Z.leb_spec l1 (-3)), (Z.leb_spec l1 (-1)), (Z.ltb_spec l1 5); lia.
  - destruct (Z.leb_spec l1 (-3)), (Z.leb_spec l1 (-1)), (Z.ltb_spec l1 5); split; intro; lia.
  - destruct (Z.leb_spec l1 (-3)), (Z.leb_spec l1 (-1)), (Z.ltb_spec l1 5); split; intro; lia.
Qed.

Lemma go_func_fst (m : M Err) w : fst (go_func m w) = fst (m w).
Proof. unfold go_func; destruct (m w) as [w' [r|e]]; reflexivity. Qed.



(** *** The stages of [unpackRootfs] *)

(** [unpack_stage] once the mapping options are built: the layout, the
    image source, the manifest fetch and the media-type check, in order. *)
Lemma unpack_stage_opened env b w :
  0 <= os_Geteuid env < 2 ^ 32 -> 0 <= os_Getegid env < 2 ^ 32 ->
  unpack_stage env b w =
    (match umoci_OpenLayout env with
     | Some e => throw (ErrOpenLayout e)
     | None =>
         match NewImageSource env with
         | Some e => throw (ErrImageSource e)
         | None =>
             match GetManifest env with
             | inr e => throw (ErrManifestSource e)
             | inl (data, mt) =>
                 if String.eqb mt MediaTypeImageManifest then
                   os_RemoveAll (os_Geteuid env) (RootfsPath b);;;
                   umocilayer_UnpackRootfs env (RootfsPath b)
                     (normalizeManifest (fst (json_Unmarshal data zeroManifest)))
                     (expected_mapOptions env)
                 else throw (ErrMediaType mt)
             end
         end
     end) (log_to w (pre_events env)).
Proof.
  intros Hu Hg.
  unfold unpack_stage, bind at 1, emit at 1.
  change {| w_fs := w_fs w; w_events := w_events w ++ [EvApexSetLevel (apexLevel (sylog_GetLevel env))] |}
    with (log_to w [EvApexSetLevel (apexLevel (sylog_GetLevel env))]).
  unfold bind at 1; rewrite buildMapOptions_run by assumption.
  unfold expected_mapOptions, pre_events.
  destruct (namespaces_IsUnprivileged env);
    rewrite ?log_to_log_to, ?log_to_nil; simpl;
    destruct (umoci_OpenLayout env); try reflexivity;
    destruct (NewImageSource env); try reflexivity;
    destruct (GetManifest env) as [[data mt]|e]; try reflexivity;
    cbv [bind ret throw]; cbv beta iota;
    destruct (String.eqb mt MediaTypeImageManifest); reflexivity.
Qed.

(** The entries that [os.RemoveAll] leaves in place. *)
Definition after_RemoveAll (euid : Z) (p : list string) (fs : list Entry) : list Entry :=
  filter (fun e => negb (path_prefix p (e_path e)) || survives euid p fs e) fs.

(** [unpack_stage] for an OCI manifest: the rootfs is removed, then umoci
    is called once, seeing what is left below the rootfs. *)
Lemma unpack_stage_oci env b w data :
  0 <= os_Geteuid env < 2 ^ 32 -> 0 <= os_Getegid env < 2 ^ 32 ->
  umoci_OpenLayout env = None -> NewImageSource env = None ->
  GetManifest env = inl (data, MediaTypeImageManifest) ->
  exists fs1,
    unpack_stage env b w =
      ({| w_fs := fs1;
          w_events := w_events w ++ pre_events env ++
            [EvRemoveAll (RootfsPath b);
             EvUnpackRootfs (RootfsPath b)
               (under (RootfsPath b) (after_RemoveAll (os_Geteuid env) (RootfsPath b) (w_fs w)))
               (normalizeManifest (fst (json_Unmarshal data zeroManifest)))
               (expected_mapOptions env)] |},
       inl (UnpackRootfs_err env)).
Proof.
  intros Hu Hg Hl Hs Hm.
  rewrite unpack_stage_opened by assumption.
  rewrite Hl, Hs, Hm, String.eqb_refl.
  unfold bind, os_RemoveAll, umocilayer_UnpackRootfs, after_RemoveAll, log_to; simpl.
  destruct (UnpackRootfs_err env); eexists; rewrite <- !app_assoc; reflexivity.
Qed.

Lemma postUnpack_ev env b : steps ev_ext (postUnpack env b).
Proof.
  unfold postUnpack, sytypes_FixPerms; ev_steps; apply walk_entries_ev.
Qed.

(** X4 *)
(** Lines 74-87: an error from [umoci.OpenLayout], from
    [NewImageSource] or from [GetManifest] (whichever comes first) is
    returned wrapped in its own message, after only the log-level and
    rootless-mode messages: the filesystem is untouched and nothing is
    removed, extracted, fixed or walked. *)
Theorem unpackRootfs_early_errors :
  forall (env : Env) (b : Bundle) (w : World),
    0 <= os_Geteuid env < 2 ^ 32 -> 0 <= os_Getegid env < 2 ^ 32 ->
    (forall e, umoci_OpenLayout env = Some e ->
       unpackRootfs env b w = (log_to w (pre_events env), inl (Some (ErrOpenLayout e)))) /\
    (forall e, umoci_OpenLayout env = None -> NewImageSource env = Some e ->
       unpackRootfs env b w = (log_to w (pre_events env), inl (Some (ErrImageSource e)))) /\
    (forall e, umoci_OpenLayout env = None -> NewImageSource env = None ->
       GetManifest env = inr e ->
       unpackRootfs env b w = (log_to w (pre_events env), inl (Some (ErrManifestSource e)))).
Proof.
  intros env b w Hu Hg.
  split; [|split]; intros;
    unfold unpackRootfs, go_func, bind at 1;
    rewrite unpack_stage_opened by assumption;
    repeat match goal with H : _ = _ |- _ => rewrite H; clear H end;
    reflexivity.
Qed.



(** The events of [unpackRootfs] once the OCI manifest is fetched. *)
Lemma unpackRootfs_oci_events env b w data :
  0 <= os_Geteuid env < 2 ^ 32 -> 0 <= os_Getegid env < 2 ^ 32 ->
  umoci_OpenLayout env = None -> NewImageSource env = None ->
  GetManifest env = inl (data, MediaTypeImageManifest) ->
  exists evs,
    w_events (fst (unpackRootfs env b w)) =
      w_events w ++ pre_events env ++
      [EvRemoveAll (RootfsPath b);
       EvUnpackRootfs (RootfsPath b)
         (under (RootfsPath b) (after_RemoveAll (os_Geteuid env) (RootfsPath b) (w_fs w)))
         (normalizeManifest (fst (json_Unmarshal data zeroManifest)))
         (expected_mapOptions env)] ++ evs.
Proof.
  intros Hu Hg Hl Hs Hm.
  destruct (unpack_stage_oci env b w data Hu Hg Hl Hs Hm) as [fs1 Hst].
  unfold unpackRootfs; rewrite go_func_fst; unfold bind at 1; rewrite Hst.
  destruct (UnpackRootfs_err env) as [msg|].
  - exists []; reflexivity.
  - match goal with |- exists evs, w_events (fst (postUnpack env b ?w1)) = _ =>
      destruct (postUnpack_ev env b w1) as [evs Hevs] end.
    exists evs; etransitivity; [exact Hevs|]; simpl.
    rewrite <- !app_assoc; simpl; rewrite <- ?app_assoc; reflexivity.
Qed.

(** X5 *)
(** Lines 104-112: once the OCI manifest is fetched, the rootfs path is
    removed and then [umocilayer.UnpackRootfs] is called exactly there,
    with the decoded manifest after media-type normalization and the
    mapping options built at lines 56-72; whatever follows is logged after
    these two calls. *)
Theorem unpackRootfs_extraction_call :
  forall (env : Env) (b : Bundle) (w : World) (data : RawManifest),
    0 <= os_Geteuid env < 2 ^ 32 -> 0 <= os_Getegid env < 2 ^ 32 ->
    umoci_OpenLayout env = None -> NewImageSource env = None ->
    GetManifest env = inl (data, MediaTypeImageManifest) ->
    exists present evs,
      w_events (fst (unpackRootfs env b w)) =
        w_events w ++ pre_events env ++
        [EvRemoveAll (RootfsPath b);
         EvUnpackRootfs (RootfsPath b) present
           (normalizeManifest (fst (json_Unmarshal data zeroManifest)))
           (expected_mapOptions env)] ++ evs.
Proof.
  intros env b w data Hu Hg Hl Hs Hm.
  destruct (unpackRootfs_oci_events env b w data Hu Hg Hl Hs Hm) as [evs Hevs].
  eexists; exists evs; exact Hevs.
Qed.


(** X6 *)
(** Lines 109-112: when [umocilayer.UnpackRootfs] fails, [unpackRootfs]
    returns its error wrapped as "error unpacking rootfs", and no
    post-processing follows: neither the permission fix nor the
    permission walk runs, whatever the bundle's options. *)
Theorem unpackRootfs_unpack_failure :
  forall (env : Env) (b : Bundle) (w : World) (data : RawManifest) (msg : string),
    0 <= os_Geteuid env < 2 ^ 32 -> 0 <= os_Getegid env < 2 ^ 32 ->
    umoci_OpenLayout env = None -> NewImageSource env = None ->
    GetManifest env = inl (data, MediaTypeImageManifest) ->
    UnpackRootfs_err env = Some msg ->
    snd (unpackRootfs env b w) = inl (Some (ErrUnpack msg)) /\
    exists present,
      w_events (fst (unpackRootfs env b w)) =
        w_events w ++ pre_events env ++
        [EvRemoveAll (RootfsPath b);
         EvUnpackRootfs (RootfsPath b) present
           (normalizeManifest (fst (json_Unmarshal data zeroManifest)))
           (expected_mapOptions env)].
Proof.
  intros env b w data msg Hu Hg Hl Hs Hm He.
  destruct (unpack_stage_oci env b w data Hu Hg Hl Hs Hm) as [fs1 Hst].
  rewrite He in Hst.
  unfold unpackRootfs, go_func, bind; rewrite Hst.
  split; [reflexivity|]; eexists; reflexivity.
Qed.


(** *** The sentinel stays inside [checkPerms] *)

(** [m] never fails with the error [e]. *)
Definition never_throws (e : GoError) {A} (m : M A) : Prop := forall w, snd (m w) <> inr e.

Lemma nt_ret e {A} (a : A) : never_throws e (ret a).
Proof. intros w; discriminate. Qed.

Lemma nt_emit e ev : never_throws e (emit ev).
Proof. intros w; discriminate. Qed.

Lemma nt_throw e e' {A} : e' <> e -> never_throws e (A := A) (throw e').
Proof. intros Hne w H; injection H as H; exact (Hne H). Qed.

Lemma nt_bind e {A B} (m : M A) (k : A -> M B) :
  never_throws e m -> (forall a, never_throws e (k a)) -> never_throws e (bind m k).
Proof.
  intros Hm Hk w; unfold bind.
  specialize (Hm w); destruct (m w) as [w' [a|e']]; [apply Hk|].
  simpl in *; intro H; injection H as H; subst e'; exact (Hm eq_refl).
Qed.

Lemma nt_RemoveAll e euid p : never_throws e (os_RemoveAll euid p).
Proof. intros w; discriminate. Qed.

Lemma nt_UnpackRootfs e env p m o : never_throws e (umocilayer_UnpackRootfs env p m o).
Proof. intros w; unfold umocilayer_UnpackRootfs; destruct (UnpackRootfs_err env); discriminate. Qed.

Ltac nt_steps :=
  repeat first
    [ apply nt_bind; [| intro]
    | apply nt_ret | apply nt_emit | apply nt_RemoveAll | apply nt_UnpackRootfs
    | apply nt_throw; discriminate
    | progress unfold sylog_Debugf
    | match goal with
      | |- never_throws _ (if ?x then _ else _) => destruct x
      | |- never_throws _ (match ?x with Some _ => _ | None => _ end) => destruct x
      | |- never_throws _ (match ?x with inl _ => _ | inr _ => _ end) => destruct x
      | |- never_throws _ (let '(_, _) := ?x in _) => destruct x
      end ].

Lemma unpack_stage_no_sentinel env b : never_throws ErrRestrictivePerm (unpack_stage env b).
Proof. unfold unpack_stage, buildMapOptions; nt_steps. Qed.

(** What [checkPerms] returns is never the sentinel, and it never fails. *)
Lemma checkPerms_result root visit w :
  exists w' r, checkPerms root visit w = (w', inl r) /\ r <> Some ErrRestrictivePerm.
Proof.
  destruct (walk_entries_shape visit (log_to w [EvPermWalk root])) as [evs [r [Hw _]]].
  unfold checkPerms, PermWalkRaiseError, bind, emit.
  change {| w_fs := w_fs w; w_events := w_events w ++ [EvPermWalk root] |}
    with (log_to w [EvPermWalk root]).
  rewrite Hw; destruct (errors_Is r ErrRestrictivePerm) eqn:Hi;
    cbv [bind ret emit sylog_Warningf]; do 2 eexists; split; try reflexivity.
  - discriminate.
  - intros ->; discriminate Hi.
Qed.

(** X8 *)
(** The sentinel [errRestrictivePerm] never reaches a caller of
    [unpackRootfs]: whatever the collaborators do, the error it returns is
    never the restrictive-permission sentinel. *)
Theorem unpackRootfs_no_sentinel :
  forall (env : Env) (b : Bundle) (w : World),
    snd (unpackRootfs env b w) <> inl (Some ErrRestrictivePerm).
Proof.
  intros env b w.
  unfold unpackRootfs, go_func, bind.
  pose proof (unpack_stage_no_sentinel env b w) as Hns.
  destruct (unpack_stage env b w) as [w1 [[msg|]|e]]; simpl.
  - discriminate.
  - unfold postUnpack.
    destruct (FixPerms (Opts b)).
    + cbv [bind sylog_Warningf sylog_Debugf sytypes_FixPerms emit ret]; simpl.
      destruct (sytypes_FixPerms_err env); discriminate.
    + destruct (SandboxTarget (Opts b)); [|discriminate].
      cbv [bind sylog_Debugf emit]; simpl.
      match goal with |- snd (let (_, _) := checkPerms ?r ?v ?w' in _) <> _ =>
        destruct (checkPerms_result r v w') as [w2 [r2 [Hc Hr2]]]; rewrite Hc end.
      simpl; intro H; injection H as H; exact (Hr2 H).
  - intro H; injection H as H; subst e; exact (Hns eq_refl).
Qed.

(** *** Which entry of the walk decides the outcome of [checkPerms] *)

(** An entry the walk callback passes over: accessible, and either not a
    directory or a directory whose mode has all of owner rwx. *)
Definition entry_clean (pa : string * Access) : Prop :=
  exists f, snd pa = Accessible f /\
            (FileMode_IsDir (fi_mode f) = false \/ Z.land (fi_mode f) 448 = 448).

Lemma walk_entries_clean_prefix pre rest w :
  Forall entry_clean pre ->
  walk_entries (pre ++ rest) checkPerms_walkFn w = walk_entries rest checkPerms_walkFn w.
Proof.
  intro Hpre; revert w; induction Hpre as [| [p a] pre' [f [Ha Hf]] _ IH]; intro w;
    [reflexivity|].
  simpl in Ha; subst a; simpl.
  unfold bind at 1; simpl.
  rewrite land_perm_700.
  destruct Hf as [Hf|Hf]; rewrite Hf; simpl; rewrite ?andb_false_r; exact (IH w).
Qed.

Lemma checkPerms_walk root visit w :
  checkPerms root visit w =
    match walk_entries visit checkPerms_walkFn (log_to w [EvPermWalk root]) with
    | (w1, inl err) =>
        if errors_Is err ErrRestrictivePerm then
          (log_to w1 [EvLog Warning warn_rm; EvLog Warning warn_chmod;
                      EvLog Warning warn_fixperms], inl None)
        else (w1, inl err)
    | (w1, inr e) => (w1, inr e)
    end.
Proof.
  unfold checkPerms, PermWalkRaiseError, bind at 1 2, emit at 1.
  change {| w_fs := w_fs w; w_events := w_events w ++ [EvPermWalk root] |}
    with (log_to w [EvPermWalk root]).
  destruct (walk_entries visit checkPerms_walkFn (log_to w [EvPermWalk root])) as [w1 [err|e]];
    [|reflexivity].
  destruct (errors_Is err ErrRestrictivePerm); [|reflexivity].
  cbv [bind sylog_Warningf emit ret log_to]; simpl; rewrite <- !app_assoc; reflexivity.
Qed.

(** X9 *)
(** When every entry the walk reaches is accessible and is either not a
    directory or a directory with owner rwx, [checkPerms] returns nil
    after the walk alone: no debug message and no warning. *)
Theorem checkPerms_clean_tree :
  forall (root : string) (visit : list (string * Access)) (w : World),
    Forall entry_clean visit ->
    checkPerms root visit w = (log_to w [EvPermWalk root], inl None).
Proof.
  intros root visit w H.
  rewrite checkPerms_walk.
  rewrite <- (app_nil_r visit), walk_entries_clean_prefix by exact H.
  reflexivity.
Qed.


(** X11 *)
(** If the first entry, in walk order, that is not passed over cannot be
    accessed for a reason other than permissions, [checkPerms] returns
    "unable to access rootfs path" for that path and error, with no
    message and no warning, whatever the entries after it are. *)
Theorem checkPerms_first_access_error :
  forall (root p : string) (e : IoErr) (pre post : list (string * Access)) (w : World),
    Forall entry_clean pre ->
    os_IsPermission e = false ->
    checkPerms root (pre ++ (p, Inaccessible e) :: post) w =
      (log_to w [EvPermWalk root], inl (Some (ErrAccessRootfs p e))).
Proof.
  intros root p e pre post w Hpre He.
  rewrite checkPerms_walk, walk_entries_clean_prefix by exact Hpre.
  simpl; unfold bind at 1; simpl; rewrite He; reflexivity.
Qed.



(** *** The listing printed by [RemoteList] *)

Lemma RemoteList_names_perm c : Permutation (map fst (Remotes c)) (RemoteList_names c).
Proof.
  unfold RemoteList_names, sort_Strings.
  eapply perm_trans; [apply sort_by_perm | apply sort_by_perm].
Qed.

Lemma remote_lookup_In rs n : In n (map fst rs) -> exists r, remote_lookup rs n = Some r.
Proof.
  induction rs as [| [k r] rs IH]; simpl; [tauto|].
  intros [<- | H]; [rewrite String.eqb_refl; eauto|].
  destruct (String.eqb k n); eauto.
Qed.

Lemma remote_lookup_NoDup rs n r :
  NoDup (map fst rs) -> In (n, r) rs -> remote_lookup rs n = Some r.
Proof.
  induction rs as [| [k r'] rs IH]; simpl; [tauto|].
  intros Hnd Hin; inversion Hnd as [|? ? Hk Hnd']; subst.
  destruct Hin as [Heq | Hin].
  - injection Heq as -> ->; rewrite String.eqb_refl; reflexivity.
  - destruct (String.eqb_spec k n) as [-> | _]; [|exact (IH Hnd' Hin)].
    exfalso; apply Hk; apply (in_map fst) in Hin; exact Hin.
Qed.

Lemma length_filter_map {A B} (f : B -> bool) (g : A -> B) l :
  length (filter f (map g l)) = length (filter (fun x => f (g x)) l).
Proof. induction l as [|x l IH]; simpl; [reflexivity|]; destruct (f (g x)); simpl; auto. Qed.



(** X15 *)
(** When the configuration file is missing and its directory exists but
    is not writable, the create-open fails with a permission error:
    [RemoteList] returns "while opening remote config file" with that
    error (not "no remote configurations"), prints nothing and creates
    nothing. *)
Theorem RemoteList_unwritable_dir :
  forall (ReadFrom : string -> Config + string) (sync : Config -> Config * option string)
         (fs : FS) (d n : string),
    file_lookup (fs_files fs) d n = None ->
    dir_lookup (fs_dirs fs) d = Some false ->
    RemoteList ReadFrom sync fs d n = (fs, [], Some (ErrOpeningConfig EACCES)).
Proof.
  intros ReadFrom sync fs d n Hf Hd.
  unfold RemoteList, os_OpenFile; rewrite Hf; simpl; rewrite Hd; reflexivity.
Qed.

(** X16 *)
(** The listing has the four header lines and then exactly one row per
    configured remote, each with the six columns NAME, URI, ACTIVE,
    GLOBAL, EXCLUSIVE and INSECURE. *)
Theorem RemoteList_output_shape :
  forall c : Config,
    length (RemoteList_output c) = (4 + length (Remotes c))%nat /\
    firstn 4 (RemoteList_output c) = RemoteList_header /\
    Forall (fun row => length row = 6%nat) (skipn 4 (RemoteList_output c)).
Proof.
  intro c; unfold RemoteList_output.
  pose proof (RemoteList_names_perm c) as Hp.
  split; [|split].
  - rewrite length_app, length_map, <- (Permutation_length Hp), length_map; reflexivity.
  - reflexivity.
  - simpl; apply Forall_map, Forall_forall; intros n Hn.
    apply (Permutation_in _ (Permutation_sym Hp)) in Hn.
    destruct (remote_lookup_In _ _ Hn) as [r Hr].
    unfold RemoteList_row; rewrite Hr; reflexivity.
Qed.

(** X17 *)
(** With the map's keys distinct, every configured remote [(n, r)] is
    listed in exactly one row, and that row shows its own URI and flags:
    ACTIVE is YES exactly when [n] is the non-empty default remote. *)
Theorem RemoteList_row_per_remote :
  forall (c : Config) (n : string) (r : Remote),
    NoDup (map fst (Remotes c)) -> In (n, r) (Remotes c) ->
    count_occ string_dec (RemoteList_names c) n = 1%nat /\
    RemoteList_row c n =
      [n; URI r;
       yes_no (negb (String.eqb (DefaultRemote c) "") && String.eqb (DefaultRemote c) n);
       yes_no (System r); yes_no (Exclusive r); yes_no (Insecure r)].
Proof.
  intros c n r Hnd Hin; split.
  - rewrite <- (proj1 (Permutation_count_occ string_dec _ _) (RemoteList_names_perm c)).
    apply (proj1 (NoDup_count_occ' string_dec _) Hnd).
    apply (in_map fst) in Hin; exact Hin.
  - unfold RemoteList_row; rewrite (remote_lookup_NoDup _ _ _ Hnd Hin); reflexivity.
Qed.

(** X18 *)
(** With the map's keys distinct, the listing marks at most one remote
    ACTIVE: exactly one when the default remote is non-empty and is one of
    the configured names, none otherwise (in particular none when no
    default is set). *)
Theorem RemoteList_one_active :
  forall c : Config,
    NoDup (map fst (Remotes c)) ->
    length (filter (fun row => String.eqb (nth 2 row "") "YES")
                   (map (RemoteList_row c) (RemoteList_names c))) =
      (if negb (String.eqb (DefaultRemote c) "") &&
          existsb (String.eqb (DefaultRemote c)) (map fst (Remotes c))
       then 1 else 0)%nat.
Proof.
  intros c Hnd.
  pose proof (RemoteList_names_perm c) as Hp.
  set (D := DefaultRemote c).
  set (ne := negb (String.eqb D "")).
  rewrite length_filter_map.
  assert (Hrow : forall x, In x (RemoteList_names c) ->
            String.eqb (nth 2 (RemoteList_row c x) "") "YES" = ne && String.eqb D x).
  { intros x Hx.
    apply (Permutation_in _ (Permutation_sym Hp)) in Hx.
    destruct (remote_lookup_In _ _ Hx) as [r Hr].
    unfold RemoteList_row; rewrite Hr; simpl; unfold ne, D.
    destruct (negb (String.eqb (DefaultRemote c) "") && String.eqb (DefaultRemote c) x);
      reflexivity. }
  rewrite (filter_ext_in _ (fun x => ne && String.eqb D x) _ Hrow).
  assert (Hcount : forall (bb : bool) l,
            length (filter (fun x => bb && String.eqb D x) l) =
            if bb then count_occ string_dec l D else 0%nat).
  { intros bb l; destruct bb; simpl.
    - induction l as [|x l IH]; simpl; [reflexivity|].
      destruct (String.eqb_spec D x), (string_dec x D); subst; simpl; try congruence;
        rewrite IH; reflexivity.
    - induction l as [|x l IH]; simpl; auto. }
  rewrite Hcount.
  rewrite <- (proj1 (Permutation_count_occ string_dec _ _) Hp).
  destruct ne; simpl; [|reflexivity].
  destruct (existsb (String.eqb D) (map fst (Remotes c))) eqn:He.
  - apply existsb_exists in He as [x [Hx Hxe]].
    apply String.eqb_eq in Hxe; subst x.
    exact (proj1 (NoDup_count_occ' string_dec _) Hnd D Hx).
  - apply count_occ_not_In; intro Hin.
    assert (existsb (String.eqb D) (map fst (Remotes c)) = true)
      by (apply existsb_exists; exists D; split; [exact Hin | apply String.eqb_refl]).
    congruence.
Qed.

(* ------------------------------------------------------------------ *)
(** ** Instances of the further properties on concrete inputs *)

Lemma apexLevel_monotone_witness :
  -1 <= 5 /\ apexLevel 5 <= apexLevel (-1).
Proof.
  assert (H : -1 <= 5) by lia.
  split; [exact H | exact (proj1 (apexLevel_monotone (-1) 5) H)].
Defined.

(** The OCI layout under the bundle's temporary directory cannot be opened. *)
Definition env_no_layout : Env :=
  {| sylog_GetLevel := 1; namespaces_IsUnprivileged := true;
     os_Geteuid := 1000; os_Getegid := 1000;
     umoci_OpenLayout := Some "open /tmp/bundle/oci/index.json: no such file or directory";
     NewImageSource := None;
     GetManifest := inl (JsonManifest manifest_one, MediaTypeImageManifest);
     UnpackRootfs_err := None; UnpackRootfs_files := [];
     sytypes_FixPerms_err := None; rootfs_walk := [] |}.

Lemma unpackRootfs_early_errors_witness :
  (0 <= os_Geteuid env_no_layout < 2 ^ 32 /\ 0 <= os_Getegid env_no_layout < 2 ^ 32) /\
  unpackRootfs env_no_layout bundle_plain world_rerun =
    (log_to world_rerun (pre_events env_no_layout),
     inl (Some (ErrOpenLayout "open /tmp/bundle/oci/index.json: no such file or directory"))).
Proof.
  assert (Hu : 0 <= os_Geteuid env_no_layout < 2 ^ 32) by (simpl; lia).
  assert (Hg : 0 <= os_Getegid env_no_layout < 2 ^ 32) by (simpl; lia).
  split; [split; assumption|].
  exact (proj1 (unpackRootfs_early_errors env_no_layout bundle_plain world_rerun Hu Hg)
           _ eq_refl).
Defined.

Lemma unpackRootfs_extraction_call_witness :
  (0 <= os_Geteuid env_sandbox < 2 ^ 32 /\ 0 <= os_Getegid env_sandbox < 2 ^ 32 /\
   umoci_OpenLayout env_sandbox = None /\ NewImageSource env_sandbox = None /\
   GetManifest env_sandbox = inl (JsonManifest manifest_one, MediaTypeImageManifest)) /\
  exists present evs,
    w_events (fst (unpackRootfs env_sandbox bundle_both world_rerun)) =
      w_events world_rerun ++ pre_events env_sandbox ++
      [EvRemoveAll (RootfsPath bundle_both);
       EvUnpackRootfs (RootfsPath bundle_both) present
         (normalizeManifest manifest_one) (expected_mapOptions env_sandbox)] ++ evs.
Proof.
  assert (Hu : 0 <= os_Geteuid env_sandbox < 2 ^ 32) by (simpl; lia).
  assert (Hg : 0 <= os_Getegid env_sandbox < 2 ^ 32) by (simpl; lia).
  split; [repeat split; try reflexivity; simpl; lia|].
  exact (unpackRootfs_extraction_call env_sandbox bundle_both world_rerun
           (JsonManifest manifest_one) Hu Hg eq_refl eq_refl eq_refl).
Defined.

(** umoci fails while extracting a layer. *)
Definition env_unpack_fails : Env :=
  {| sylog_GetLevel := 1; namespaces_IsUnprivileged := true;
     os_Geteuid := 1000; os_Getegid := 1000;
     umoci_OpenLayout := None; NewImageSource := None;
     GetManifest := inl (JsonManifest manifest_one, MediaTypeImageManifest);
     UnpackRootfs_err := Some "layer digest mismatch";
     UnpackRootfs_files := [];
     sytypes_FixPerms_err := None; rootfs_walk := visit_restrictive |}.

Lemma unpackRootfs_unpack_failure_witness :
  UnpackRootfs_err env_unpack_fails = Some "layer digest mismatch" /\
  snd (unpackRootfs env_unpack_fails bundle_both empty_world) =
    inl (Some (ErrUnpack "layer digest mismatch")).
Proof.
  split; [reflexivity|].
  refine (proj1 (unpackRootfs_unpack_failure env_unpack_fails bundle_both empty_world
                   (JsonManifest manifest_one) "layer digest mismatch" _ _ eq_refl eq_refl
                   eq_refl eq_refl)); simpl; lia.
Defined.



Definition etc_dir : FileInfo := {| fi_name := "etc"; fi_mode := Z.lor ModeDir 493 |}.

Lemma etc_dir_clean : Forall entry_clean [("rootfs/etc", Accessible etc_dir)].
Proof.
  repeat constructor; exists etc_dir; split; [reflexivity | right; reflexivity].
Qed.

Lemma checkPerms_clean_tree_witness :
  Forall entry_clean [("rootfs/etc", Accessible etc_dir)] /\
  checkPerms "rootfs" [("rootfs/etc", Accessible etc_dir)] empty_world =
    (log_to empty_world [EvPermWalk "rootfs"], inl None).
Proof.
  split; [exact etc_dir_clean|].
  exact (checkPerms_clean_tree "rootfs" _ empty_world etc_dir_clean).
Defined.


Lemma checkPerms_first_access_error_witness :
  (Forall entry_clean [("rootfs/etc", Accessible etc_dir)] /\
   os_IsPermission (EIO "stale file handle") = false) /\
  checkPerms "rootfs"
    ([("rootfs/etc", Accessible etc_dir)] ++
     ("rootfs/x", Inaccessible (EIO "stale file handle")) :: [("rootfs/d", Accessible restrictive_dir)])
    empty_world =
    (log_to empty_world [EvPermWalk "rootfs"],
     inl (Some (ErrAccessRootfs "rootfs/x" (EIO "stale file handle")))).
Proof.
  split; [split; [exact etc_dir_clean | reflexivity]|].
  exact (checkPerms_first_access_error "rootfs" "rootfs/x" (EIO "stale file handle")
           _ _ empty_world etc_dir_clean eq_refl).
Defined.




Definition fs_readonly : FS :=
  {| fs_files := []; fs_dirs := [("/home/u/.apptainer", false)]; fs_umask := 18 |}.

Lemma RemoteList_unwritable_dir_witness :
  (file_lookup (fs_files fs_readonly) "/home/u/.apptainer" "remote.yaml" = None /\
   dir_lookup (fs_dirs fs_readonly) "/home/u/.apptainer" = Some false) /\
  RemoteList ReadFrom_yaml sync_none fs_readonly "/home/u/.apptainer" "remote.yaml" =
    (fs_readonly, [], Some (ErrOpeningConfig EACCES)).
Proof.
  split; [split; reflexivity|].
  exact (RemoteList_unwritable_dir ReadFrom_yaml sync_none fs_readonly
           "/home/u/.apptainer" "remote.yaml" eq_refl eq_refl).
Defined.

Definition remote_cloud : Remote :=
  {| URI := "cloud.apptainer.org"; System := true; Exclusive := false; Insecure := false |}.
Definition remote_lab : Remote :=
  {| URI := "lab.example.org"; System := false; Exclusive := false; Insecure := true |}.

Definition config_two : Config :=
  {| Remotes := [("DefaultRemote", remote_cloud); ("lab", remote_lab)];
     DefaultRemote := "lab" |}.

Lemma config_two_keys : NoDup (map fst (Remotes config_two)).
Proof.
  simpl; constructor; [simpl; intros [H|[]]; discriminate H|].
  constructor; [intros []|constructor].
Qed.

Lemma RemoteList_row_per_remote_witness :
  (NoDup (map fst (Remotes config_two)) /\ In ("lab", remote_lab) (Remotes config_two)) /\
  count_occ string_dec (RemoteList_names config_two) "lab" = 1%nat /\
  RemoteList_row config_two "lab" = ["lab"; "lab.example.org"; "YES"; "NO"; "NO"; "YES"].
Proof.
  assert (Hin : In ("lab", remote_lab) (Remotes config_two)) by (simpl; tauto).
  split; [split; [exact config_two_keys | exact Hin]|].
  exact (RemoteList_row_per_remote config_two "lab" remote_lab config_two_keys Hin).
Defined.

Lemma RemoteList_one_active_witness :
  NoDup (map fst (Remotes config_two)) /\
  length (filter (fun row => String.eqb (nth 2 row "") "YES")
                 (map (RemoteList_row config_two) (RemoteList_names config_two))) = 1%nat.
Proof.
  split; [exact config_two_keys|].
  exact (RemoteList_one_active config_two config_two_keys).
Defined.
